(** * skcriteria: normalization operators and input validators

    A shallow embedding of [skcriteria/norm.py] (the five normalization
    operators [sum], [max], [vector], [push_negatives], [add1to0]) over a
    small model of the numpy primitives they call, and of the two validators
    [criteriarr] and [is_mtx] of [skcriteria/core.py].

    Numbers.  numpy arrays carry a dtype; the operators are generic in it.
    The embedding keeps the three dtypes the code can meet ([bool], [int],
    [float]) and is generic in the floating-point arithmetic, which is given
    twice:
    - [binary64]: the kernel's IEEE-754 binary64 numbers, used to run the
      code on concrete inputs;
    - [xreal]: exact real arithmetic extended with [+inf], [-inf] and [NaN]
      (division by zero yields them, nothing is rounded, the sign of zero
      is not tracked), used for statements about all matrices; such a
      statement keeps to numbers on which binary64 neither overflows nor
      cancels, where the code differs from it by rounding only.
    An integer array is an int64 array, what [np.asarray] makes of Python
    integers; its elements are kept in [Z] and its arithmetic wraps around
    at 64 bits.  Sums are folded from the left; numpy's order of summation
    depends on the memory layout and can differ in the last bit. *)

From Stdlib Require Import List ZArith Bool Lia Reals Lra Floats.
Import ListNotations.

Set Implicit Arguments.

(** ** Exceptions *)

Inductive exn : Type :=
| ValueError     (* broadcasting mismatch, reduction of an empty slice *)
| AxisError      (* axis out of bounds for the array's dimension *)
| IndexError     (* shape[0] of a 0-d array, mask of the wrong shape *)
| TypeError      (* boolean subtract *)
| ValueOutOfDomain.  (* a criteria value that is neither MIN nor MAX *)

Inductive result (A : Type) : Type :=
| Ok (a : A)
| Raise (e : exn).

Arguments Ok {A} a.
Arguments Raise {A} e.

Definition bind {A B} (r : result A) (k : A -> result B) : result B :=
  match r with
  | Ok a => k a
  | Raise e => Raise e
  end.

Definition rmap {A B} (f : A -> B) (r : result A) : result B :=
  bind r (fun a => Ok (f a)).

Notation "x <- r ;; k" := (bind r (fun x => k))
  (at level 61, r at next level, right associativity).

(** ** Scalar arithmetic of a dtype *)

Class Num (T : Type) : Type := {
  num_zero : T;
  num_one : T;
  num_add : T -> T -> T;
  num_sub : T -> T -> T;
  num_mul : T -> T -> T;
  num_eqb : T -> T -> bool;
  num_ltb : T -> T -> bool;
  num_leb : T -> T -> bool;
  num_isnan : T -> bool }.

Class Floating (F : Type) : Type := {
  fl_num :: Num F;
  fl_div : F -> F -> F;
  fl_sqrt : F -> F;
  fl_of_Z : Z -> F }.

(** *** int64

    The values of the dtype are the integers from [-2^63] to [2^63 - 1];
    the result of an operation on two of them is reduced to that range.
    An integer outside the range is no int64 value: it stands for a Python
    integer of an object array, whose arithmetic is exact. *)

Definition int64_min : Z := (- 2 ^ 63)%Z.
Definition int64_max : Z := (2 ^ 63 - 1)%Z.

Definition fits_int64 (z : Z) : bool :=
  ((int64_min <=? z) && (z <=? int64_max))%Z.

Definition wrap64 (z : Z) : Z :=
  ((z - int64_min) mod 2 ^ 64 + int64_min)%Z.

Definition int64_op (op : Z -> Z -> Z) (x y : Z) : Z :=
  if fits_int64 x && fits_int64 y then wrap64 (op x y) else op x y.

Definition add64 : Z -> Z -> Z := int64_op Z.add.
Definition sub64 : Z -> Z -> Z := int64_op Z.sub.
Definition mul64 : Z -> Z -> Z := int64_op Z.mul.

#[global] Instance Num_Z : Num Z := {|
  num_zero := 0%Z;
  num_one := 1%Z;
  num_add := add64;
  num_sub := sub64;
  num_mul := mul64;
  num_eqb := Z.eqb;
  num_ltb := Z.ltb;
  num_leb := Z.leb;
  num_isnan := fun _ => false |}.

(** *** IEEE-754 binary64 *)

(** The float nearest to an integer.  [of_uint63] converts the 63-bit
    magnitudes; the magnitude [2^63] of [int64_min] is converted by
    halves, which loses nothing. *)
Definition float_of_N (a : Z) : float :=
  if (a <? 2 ^ 63)%Z
  then PrimFloat.of_uint63 (Uint63.of_Z a)
  else PrimFloat.mul (PrimFloat.of_uint63 (Uint63.of_Z (a / 2)))
                     (PrimFloat.of_uint63 (Uint63.of_Z 2)).

Definition float_of_Z (z : Z) : float :=
  match z with
  | Zneg _ => PrimFloat.opp (float_of_N (Z.abs z))
  | _ => float_of_N z
  end.

#[global] Instance Num_binary64 : Num float := {|
  num_zero := PrimFloat.zero;
  num_one := PrimFloat.one;
  num_add := PrimFloat.add;
  num_sub := PrimFloat.sub;
  num_mul := PrimFloat.mul;
  num_eqb := PrimFloat.eqb;
  num_ltb := PrimFloat.ltb;
  num_leb := PrimFloat.leb;
  num_isnan := PrimFloat.is_nan |}.

#[global] Instance binary64 : Floating float := {|
  fl_num := Num_binary64;
  fl_div := PrimFloat.div;
  fl_sqrt := PrimFloat.sqrt;
  fl_of_Z := float_of_Z |}.

(** *** Exact reals with the IEEE special values *)

Inductive xreal : Type :=
| Fin (r : R)
| PInf
| NInf
| NaN.

Definition Rltb (a b : R) : bool := if Rlt_dec a b then true else false.
Definition Rleb (a b : R) : bool := if Rle_dec a b then true else false.
Definition Reqb (a b : R) : bool := if Req_dec_T a b then true else false.

Definition xopp (x : xreal) : xreal :=
  match x with
  | Fin a => Fin (- a)
  | PInf => NInf
  | NInf => PInf
  | NaN => NaN
  end.

Definition xadd (x y : xreal) : xreal :=
  match x, y with
  | NaN, _ | _, NaN => NaN
  | Fin a, Fin b => Fin (a + b)
  | PInf, NInf | NInf, PInf => NaN
  | PInf, _ | _, PInf => PInf
  | NInf, _ | _, NInf => NInf
  end.

Definition xsub (x y : xreal) : xreal := xadd x (xopp y).

(** [inf * b] for a finite [b]: the sign of [b] decides, [inf * 0 = NaN]. *)
Definition xscale_inf (pos : bool) (b : R) : xreal :=
  if Reqb b 0 then NaN
  else if Bool.eqb pos (Rltb 0 b) then PInf else NInf.

Definition xmul (x y : xreal) : xreal :=
  match x, y with
  | NaN, _ | _, NaN => NaN
  | Fin a, Fin b => Fin (a * b)
  | PInf, Fin b | Fin b, PInf => xscale_inf true b
  | NInf, Fin b | Fin b, NInf => xscale_inf false b
  | PInf, PInf | NInf, NInf => PInf
  | PInf, NInf | NInf, PInf => NInf
  end.

Definition xdiv (x y : xreal) : xreal :=
  match x, y with
  | NaN, _ | _, NaN => NaN
  | Fin a, Fin b =>
      if Reqb b 0 then
        if Reqb a 0 then NaN else if Rltb 0 a then PInf else NInf
      else Fin (a / b)
  | Fin _, _ => Fin 0
  | PInf, Fin b => if Rltb b 0 then NInf else PInf
  | NInf, Fin b => if Rltb b 0 then PInf else NInf
  | _, _ => NaN
  end.

Definition xsqrt (x : xreal) : xreal :=
  match x with
  | Fin a => if Rltb a 0 then NaN else Fin (R_sqrt.sqrt a)
  | PInf => PInf
  | _ => NaN
  end.

Definition xeqb (x y : xreal) : bool :=
  match x, y with
  | Fin a, Fin b => Reqb a b
  | PInf, PInf | NInf, NInf => true
  | _, _ => false
  end.

Definition xltb (x y : xreal) : bool :=
  match x, y with
  | NaN, _ | _, NaN => false
  | Fin a, Fin b => Rltb a b
  | NInf, NInf | PInf, _ => false
  | NInf, _ | _, PInf => true
  | _, NInf => false
  end.

Definition xleb (x y : xreal) : bool := xltb x y || xeqb x y.

Definition xisnan (x : xreal) : bool :=
  match x with NaN => true | _ => false end.

#[global] Instance Num_xreal : Num xreal := {|
  num_zero := Fin 0;
  num_one := Fin 1;
  num_add := xadd;
  num_sub := xsub;
  num_mul := xmul;
  num_eqb := xeqb;
  num_ltb := xltb;
  num_leb := xleb;
  num_isnan := xisnan |}.

#[global] Instance exact : Floating xreal := {|
  fl_num := Num_xreal;
  fl_div := xdiv;
  fl_sqrt := xsqrt;
  fl_of_Z := fun z => Fin (IZR z) |}.

(** ** Arrays: shapes, broadcasting, reductions

    An array has zero, one or two dimensions.  A two-dimensional array is
    the list of its rows; it is well formed when the rows have one length.
    An array of shape [(0, n)] with [n > 0] has no representation here. *)

Inductive arr (T : Type) : Type :=
| A0 (x : T)
| A1 (v : list T)
| A2 (rows : list (list T)).

Arguments A0 {T} x.
Arguments A1 {T} v.
Arguments A2 {T} rows.

Definition ncols {T} (rows : list (list T)) : nat := length (hd [] rows).

Definition shape {T} (a : arr T) : list nat :=
  match a with
  | A0 _ => []
  | A1 v => [length v]
  | A2 rows => [length rows; ncols rows]
  end.

Definition ndim {T} (a : arr T) : nat := length (shape a).

Definition amap {T U} (f : T -> U) (a : arr T) : arr U :=
  match a with
  | A0 x => A0 (f x)
  | A1 v => A1 (map f v)
  | A2 rows => A2 (map (map f) rows)
  end.

Definition ravel {T} (a : arr T) : list T :=
  match a with
  | A0 x => [x]
  | A1 v => v
  | A2 rows => concat rows
  end.

Fixpoint zip_with {T U V} (f : T -> U -> V) (l : list T) (l' : list U)
  : list V :=
  match l, l' with
  | x :: t, y :: t' => f x y :: zip_with f t t'
  | _, _ => []
  end.

Definition zip_cons {T} (r : list T) (cols : list (list T))
  : list (list T) := zip_with cons r cols.

(** The columns of a matrix with [n] columns. *)
Fixpoint transpose {T} (n : nat) (rows : list (list T)) : list (list T) :=
  match rows with
  | [] => repeat [] n
  | r :: rs => zip_cons r (transpose n rs)
  end.

(** *** Broadcasting of a binary ufunc *)

Definition bdim (p q : nat) : option nat :=
  if (p =? q)%nat then Some p
  else if (p =? 1)%nat then Some q
  else if (q =? 1)%nat then Some p
  else None.

(** A dimension of length 1 is repeated [k] times; any other is kept. *)
Definition stretch {T} (k : nat) (l : list T) : list T :=
  match l with
  | [x] => repeat x k
  | _ => l
  end.

Definition view2 {T} (a : arr T) : list (list T) :=
  match a with
  | A0 x => [[x]]
  | A1 v => [v]
  | A2 rows => rows
  end.

Definition broadcast1 {T U V} (f : T -> U -> V) (u : list T) (v : list U)
  : result (list V) :=
  match bdim (length u) (length v) with
  | Some n => Ok (zip_with f (stretch n u) (stretch n v))
  | None => Raise ValueError
  end.

Definition broadcast_rows {T U V} (f : T -> U -> V)
  (ra : list (list T)) (rb : list (list U)) : result (list (list V)) :=
  match bdim (length ra) (length rb), bdim (ncols ra) (ncols rb) with
  | Some m, Some n =>
      Ok (zip_with (fun r s => zip_with f (stretch n r) (stretch n s))
                   (stretch m ra) (stretch m rb))
  | _, _ => Raise ValueError
  end.

Definition broadcast2 {T U V} (f : T -> U -> V) (a : arr T) (b : arr U)
  : result (arr V) :=
  match a, b with
  | A0 x, A0 y => Ok (A0 (f x y))
  | A0 x, A1 v => Ok (A1 (map (f x) v))
  | A1 u, A0 y => Ok (A1 (map (fun x => f x y) u))
  | A1 u, A1 v => rmap A1 (broadcast1 f u v)
  | _, _ => rmap A2 (broadcast_rows f (view2 a) (view2 b))
  end.

(** *** Reductions along an axis *)

Inductive axis : Type :=
| AxNone      (* axis=None: the flattened array *)
| Ax0         (* axis=0: one slice per column *)
| Ax1.        (* axis=1: one slice per row *)

Definition reduce {T U} (f : list T -> U) (keepdims : bool)
  (a : arr T) (ax : axis) : result (arr U) :=
  match a, ax with
  | A0 _, Ax1 => Raise AxisError
  | A0 x, _ => Ok (A0 (f [x]))
  | A1 v, Ax1 => Raise AxisError
  | A1 v, _ => Ok (if keepdims then A1 [f v] else A0 (f v))
  | A2 rows, AxNone =>
      Ok (if keepdims then A2 [[f (concat rows)]] else A0 (f (concat rows)))
  | A2 rows, Ax0 =>
      let r := map f (transpose (ncols rows) rows) in
      Ok (if keepdims then A2 [r] else A1 r)
  | A2 rows, Ax1 =>
      let r := map f rows in
      Ok (if keepdims then A2 (map (fun x => [x]) r) else A1 r)
  end.

(** Number of elements a reduction folds into each result. *)
Definition reduced_size {T} (a : arr T) (ax : axis) : nat :=
  match a, ax with
  | A0 _, _ => 1
  | A1 v, _ => length v
  | A2 rows, AxNone => length rows * ncols rows
  | A2 rows, Ax0 => length rows
  | A2 rows, Ax1 => ncols rows
  end.

(** A reduction without identity ([minimum], [maximum]) raises
    "zero-size array to reduction operation" on an empty reduced axis. *)
Definition reduce_noidentity {T U} (f : list T -> U) (keepdims : bool)
  (a : arr T) (ax : axis) : result (arr U) :=
  r <- reduce f keepdims a ax ;;
  if (reduced_size a ax =? 0)%nat then Raise ValueError else Ok r.

(** The first element starts the fold; [d] stands for the empty case,
    which [reduce_noidentity] never lets through. *)
Definition fold1 {T} (f : T -> T -> T) (d : T) (l : list T) : T :=
  match l with
  | [] => d
  | x :: t => fold_left f t x
  end.

Section Ufuncs.
Context {T : Type} {N : Num T}.

(** numpy's loops: [io1 = (io1 <= in2 || isnan(io1)) ? io1 : in2]. *)
Definition minimum (a b : T) : T :=
  if num_leb a b || num_isnan a then a else b.

Definition maximum (a b : T) : T :=
  if num_leb b a || num_isnan a then a else b.

Definition list_sum (l : list T) : T := fold_left num_add l num_zero.
Definition list_min (l : list T) : T := fold1 minimum num_zero l.
Definition list_max (l : list T) : T := fold1 maximum num_zero l.

Definition of_bool (b : bool) : T := if b then num_one else num_zero.

(** [np.sum(a, axis=axis, keepdims=True)] *)
Definition np_sum (a : arr T) (ax : axis) : result (arr T) :=
  reduce list_sum true a ax.

(** [np.max(a, axis=axis, keepdims=True)] *)
Definition np_max (a : arr T) (ax : axis) : result (arr T) :=
  reduce_noidentity list_max true a ax.

(** [np.min(a, axis=axis, keepdims=True)] at one dtype *)
Definition np_min_at (a : arr T) (ax : axis) : result (arr T) :=
  reduce_noidentity list_min true a ax.
End Ufuncs.

(** ** numpy arrays with their dtype *)

Section NdArray.
Context {F : Type} {FL : Floating F}.

Inductive ndarray : Type :=
| BoolArr (a : arr bool)
| IntArr (a : arr Z)
| FloatArr (a : arr F).

Definition nd_shape (x : ndarray) : list nat :=
  match x with
  | BoolArr a => shape a
  | IntArr a => shape a
  | FloatArr a => shape a
  end.

(** [np.asarray(x, dtype=float)] *)
Definition asarray_float (x : ndarray) : arr F :=
  match x with
  | BoolArr a => amap (fun b : bool => of_bool b) a
  | IntArr a => amap fl_of_Z a
  | FloatArr a => a
  end.

(** Type promotion of a binary ufunc: bool < int < float. *)
Definition promote2 {X} (kb : arr bool -> arr bool -> X)
  (kz : arr Z -> arr Z -> X) (kf : arr F -> arr F -> X)
  (x y : ndarray) : X :=
  match x, y with
  | BoolArr a, BoolArr b => kb a b
  | BoolArr a, IntArr b => kz (amap Z.b2z a) b
  | IntArr a, BoolArr b => kz a (amap Z.b2z b)
  | IntArr a, IntArr b => kz a b
  | _, _ => kf (asarray_float x) (asarray_float y)
  end.

(** [x + y]; on booleans [+] is the logical or. *)
Definition nd_add : ndarray -> ndarray -> result ndarray :=
  promote2 (fun a b => rmap BoolArr (broadcast2 orb a b))
           (fun a b => rmap IntArr (broadcast2 add64 a b))
           (fun a b => rmap FloatArr (broadcast2 num_add a b)).

(** [x - y]; numpy refuses to subtract booleans. *)
Definition nd_sub : ndarray -> ndarray -> result ndarray :=
  promote2 (fun _ _ => Raise TypeError)
           (fun a b => rmap IntArr (broadcast2 sub64 a b))
           (fun a b => rmap FloatArr (broadcast2 num_sub a b)).

(** [x * y]; on booleans [*] is the logical and. *)
Definition nd_mul : ndarray -> ndarray -> result ndarray :=
  promote2 (fun a b => rmap BoolArr (broadcast2 andb a b))
           (fun a b => rmap IntArr (broadcast2 mul64 a b))
           (fun a b => rmap FloatArr (broadcast2 num_mul a b)).

(** [x < y] *)
Definition nd_lt : ndarray -> ndarray -> result ndarray :=
  promote2
    (fun a b => rmap BoolArr
       (broadcast2 (fun p q : bool => Z.ltb (Z.b2z p) (Z.b2z q)) a b))
    (fun a b => rmap BoolArr (broadcast2 Z.ltb a b))
    (fun a b => rmap BoolArr (broadcast2 num_ltb a b)).

(** [x == y] *)
Definition nd_eq : ndarray -> ndarray -> result ndarray :=
  promote2 (fun a b => rmap BoolArr (broadcast2 Bool.eqb a b))
           (fun a b => rmap BoolArr (broadcast2 Z.eqb a b))
           (fun a b => rmap BoolArr (broadcast2 num_eqb a b)).

(** A Python integer operand, as in [arr + 1] or [mins < 0]. *)
Definition py_int (k : Z) : ndarray := IntArr (A0 k).

(** [np.min(x, axis=axis, keepdims=True)]; on booleans the minimum is
    the conjunction. *)
Definition np_min (x : ndarray) (ax : axis) : result ndarray :=
  match x with
  | BoolArr a =>
      rmap BoolArr (reduce_noidentity (fold1 andb false) true a ax)
  | IntArr a => rmap IntArr (np_min_at a ax)
  | FloatArr a => rmap FloatArr (np_min_at a ax)
  end.

(** Truth value of the elements, as [np.any] and [.any()] read them. *)
Definition truth (x : ndarray) : arr bool :=
  match x with
  | BoolArr a => a
  | IntArr a => amap (fun z => negb (Z.eqb z 0)) a
  | FloatArr a => amap (fun v => negb (num_eqb v num_zero)) a
  end.

(** [np.any(x, axis=axis)], without [keepdims] *)
Definition np_any (x : ndarray) (ax : axis) : result ndarray :=
  rmap BoolArr (reduce (existsb (fun b : bool => b)) false (truth x) ax).

(** [k in x], that is [(x == k).any()] *)
Definition contains (k : Z) (x : ndarray) : result bool :=
  e <- nd_eq x (py_int k) ;;
  Ok (existsb (fun b : bool => b) (ravel (truth e))).

(** [x.shape[0]] *)
Definition shape0 (x : ndarray) : result nat :=
  match nd_shape x with
  | [] => Raise IndexError
  | k :: _ => Ok k
  end.

(** [np.zeros(k)]: a one-dimensional array of [k] floats *)
Definition np_zeros (k : nat) : ndarray :=
  FloatArr (A1 (repeat num_zero k)).

(** [target[mask] = k] for a one-dimensional float [target] and a boolean
    [mask] of the same shape; any other combination is an index error. *)
Definition setitem_mask (target mask : ndarray) (k : Z) : result ndarray :=
  match target, mask with
  | FloatArr (A1 t), BoolArr (A1 m) =>
      if (length t =? length m)%nat
      then Ok (FloatArr (A1 (zip_with
                 (fun x (b : bool) => if b then fl_of_Z k else x) t m)))
      else Raise IndexError
  | _, _ => Raise IndexError
  end.

(** [linalg.norm(x, None, axis=axis)]: the 2-norm of each slice, without
    [keepdims].  With [axis=None] it is [sqrt(dot(v, v))] on the raveled
    array, otherwise [sqrt(add.reduce(x * x, axis))]. *)
Definition linalg_norm (x : arr F) (ax : axis) : result (arr F) :=
  match ax with
  | AxNone =>
      let v := ravel x in
      Ok (A0 (fl_sqrt (list_sum (zip_with num_mul v v))))
  | _ =>
      rmap (amap fl_sqrt)
           (reduce list_sum false (amap (fun e => num_mul e e) x) ax)
  end.
End NdArray.

Arguments ndarray F : clear implicits.

(** ** skcriteria/norm.py *)

Module norm.
Section Norm.
Context {F : Type} {FL : Floating F}.

Definition sum (arr : ndarray F) (axis : axis) : result (ndarray F) :=
  let arr := asarray_float arr in
  sumval <- np_sum arr axis ;;
  rmap FloatArr (broadcast2 fl_div arr sumval).

Definition max (arr : ndarray F) (axis : axis) : result (ndarray F) :=
  let arr := asarray_float arr in
  maxval <- np_max arr axis ;;
  rmap FloatArr (broadcast2 fl_div arr maxval).

Definition vector (arr : ndarray F) (axis : axis) : result (ndarray F) :=
  let arr := asarray_float arr in
  frob <- linalg_norm arr axis ;;
  rmap FloatArr (broadcast2 fl_div arr frob).

Definition push_negatives (arr : ndarray F) (axis : axis)
  : result (ndarray F) :=
  mins <- np_min arr axis ;;
  neg <- nd_lt mins (py_int 0) ;;
  delta <- nd_mul neg mins ;;
  nd_sub arr delta.

Definition add1to0 (arr : ndarray F) (axis : axis) : result (ndarray F) :=
  has0 <- contains 0 arr ;;
  if has0 then
    if (length (nd_shape arr) =? 1)%nat
       || match axis with AxNone => true | _ => false end
    then nd_add arr (py_int 1)
    else
      eq0 <- nd_eq arr (py_int 0) ;;
      zeros <- np_any eq0 axis ;;
      k <- shape0 zeros ;;
      increment <- setitem_mask (np_zeros k) zeros 1 ;;
      nd_add arr increment
  else Ok arr.
End Norm.
End norm.

(** ** skcriteria/core.py: the validators

    [core.py] is not part of the sources at hand (only its tests are); the
    two validators are modelled from the specification. *)

Module core.

Definition MIN : Z := (-1)%Z.
Definition MAX : Z := 1%Z.

(** *** Array objects and their identity

    numpy arrays are objects: a store maps addresses to the contents of
    the one-dimensional arrays allocated so far. *)

Definition ref : Type := nat.

Record store : Type := {
  next : ref;
  cells : ref -> list Z }.

Definition alloc (h : store) (v : list Z) : store * ref :=
  ({| next := S (next h);
      cells := fun r => if (r =? next h)%nat then v else cells h r |},
   next h).

(** What a caller passes: a plain sequence or an existing array. *)
Inductive pyseq : Type :=
| Plain (l : list Z)
| Array (r : ref).

Definition contents (h : store) (x : pyseq) : list Z :=
  match x with
  | Plain l => l
  | Array r => cells h r
  end.

(** [np.asarray]: an array is returned as it is, a sequence is copied into
    a new array. *)
Definition asarray (h : store) (x : pyseq) : store * ref :=
  match x with
  | Plain l => alloc h l
  | Array r => (h, r)
  end.

Definition in_domain (z : Z) : bool := (z =? MIN)%Z || (z =? MAX)%Z.

(** Modelled from the spec: [criteriarr] of core.py (section 4.2).  The
    whole vector is scanned; a value outside {MIN, MAX} fails the call and
    nothing is produced; otherwise the input is returned as an array, the
    same object when it already was one. *)
Definition criteriarr (h : store) (x : pyseq) : store * result ref :=
  if forallb in_domain (contents h x)
  then let (h', r) := asarray h x in (h', Ok r)
  else (h, Raise ValueOutOfDomain).

(** *** Nested sequences *)

#[warnings="-register-all"] Inductive pyobj : Type :=
| PyNum (z : Z)
| PyList (items : list pyobj).

Inductive mtx_input : Type :=
| Nested (o : pyobj)
| NdArr (a : arr pyobj).

Definition is_scalar (o : pyobj) : bool :=
  match o with PyNum _ => true | PyList _ => false end.

(** The length of a row of scalars; [None] for anything else. *)
Definition row_length (o : pyobj) : option nat :=
  match o with
  | PyList items =>
      if forallb is_scalar items then Some (length items) else None
  | PyNum _ => None
  end.

Definition same_length (n : nat) (o : pyobj) : bool :=
  match row_length o with
  | Some k => (k =? n)%nat
  | None => false
  end.

Definition items_of (o : pyobj) : list pyobj :=
  match o with PyList items => items | PyNum _ => [] end.

(** Modelled from the spec: what [np.asarray] makes of a nested sequence,
    as far as its number of dimensions goes: equal rows of scalars give a
    two-dimensional array, any other sequence a one-dimensional array of
    its items. *)
Definition asarray_obj (o : pyobj) : arr pyobj :=
  match o with
  | PyNum _ => A0 o
  | PyList [] => A1 []
  | PyList (r :: rs) =>
      match row_length r with
      | Some n =>
          if forallb (same_length n) rs
          then A2 (map items_of (r :: rs))
          else A1 (r :: rs)
      | None => A1 (r :: rs)
      end
  end.

(** Modelled from the spec: [is_mtx] of core.py (section 4.3).  The shape
    is inspected defensively: a nested sequence is a matrix when it has a
    first row of scalars and every other row is a row of scalars of that
    length; an array is one when it has two dimensions, at least one row
    and rows of one length. *)
Definition is_mtx (x : mtx_input) : bool :=
  match x with
  | Nested (PyList (r :: rs)) =>
      match row_length r with
      | Some n => forallb (same_length n) rs
      | None => false
      end
  | Nested _ => false
  | NdArr (A2 (r :: rs)) =>
      forallb (fun r' => (length r' =? length r)%nat) rs
  | NdArr _ => false
  end.

(** The specification's words: two-dimensional and rectangular. *)
Definition rows_of (x : mtx_input) (rows : list (list pyobj)) : Prop :=
  match x with
  | Nested o =>
      o = PyList (map PyList rows) /\ Forall (Forall (fun e => is_scalar e = true)) rows
  | NdArr a => a = A2 rows
  end.

Definition two_dimensional_rectangular (x : mtx_input) : Prop :=
  exists rows n,
    rows_of x rows /\ rows <> [] /\ Forall (fun r => length r = n) rows.

End core.

(** ** Vocabulary of the statements *)

(** A matrix: at least one row, at least one column, rows of one length. *)
Definition matrix {T} (rows : list (list T)) : Prop :=
  rows <> [] /\ ncols rows <> 0%nat /\
  Forall (fun r => length r = ncols rows) rows.

(** The axis slices of a matrix: the whole matrix, its columns, its rows. *)
Definition slices {T} (ax : axis) (rows : list (list T)) : list (list T) :=
  match ax with
  | AxNone => [concat rows]
  | Ax0 => transpose (ncols rows) rows
  | Ax1 => rows
  end.


Definition xle (x y : xreal) : Prop := xleb x y = true.


(** *** The specification's words, slice by slice

    They speak of the sum, the least and the greatest element of a slice
    as mathematics has them, not through the reductions of the code.  A
    slice [s] of floats is read as the reals [rs] it holds,
    [s = map Fin rs]. *)

Definition Rsum (l : list R) : R := fold_right Rplus 0%R l.

Definition squares (l : list R) : list R := map (fun x => (x * x)%R) l.

Definition greatest (l : list R) (m : R) : Prop :=
  In m l /\ Forall (fun x => (x <= m)%R) l.

Definition least (l : list R) (m : R) : Prop :=
  In m l /\ Forall (fun x => (m <= x)%R) l.

Definition least_int (l : list Z) (m : Z) : Prop :=
  In m l /\ Forall (fun x => (m <= x)%Z) l.

Definition int64_value (z : Z) : Prop := (int64_min <= z <= int64_max)%Z.

(** A slice in which no difference of two elements leaves int64. *)
Definition spread_fits (s : list Z) : Prop :=
  forall x y, In x s -> In y s -> (x - y <= int64_max)%Z.

(** [max]: where the greatest element is positive nothing exceeds 1, and
    where it is not zero the elements that attain it become 1. *)
Definition max_spec (s t : list xreal) : Prop :=
  forall rs m,
    s = map Fin rs -> greatest rs m ->
    ((0 < m)%R -> Forall (fun y => exists r, y = Fin r /\ (r <= 1)%R) t) /\
    (m <> 0%R ->
     Forall2 (fun x y => x = m -> y = Fin 1) rs t /\
     Exists (fun y => y = Fin 1) t).




(** [push_negatives] on int64: a slice with a negative least element [m]
    has [m] subtracted from each element, provided no difference leaves
    int64, and then its least element is 0; any other slice is kept. *)
Definition push_spec_int (s t : list Z) : Prop :=
  forall m,
    least_int s m ->
    ((m < 0)%Z -> Forall (fun x => (x - m <= int64_max)%Z) s ->
     t = map (fun x => (x - m)%Z) s /\ least_int t 0%Z) /\
    ((0 <= m)%Z -> t = s).

(** [push_negatives] on floats whose magnitude leaves room for the
    difference. *)
Definition push_spec_real (s t : list xreal) : Prop :=
  forall rs m,
    s = map Fin rs ->
    Forall (fun x => (Rabs x <= 2 ^ 1022)%R) rs ->
    least rs m ->
    ((m < 0)%R ->
     t = map (fun x => Fin (x - m)) rs /\
     least (map (fun x => (x - m)%R) rs) 0%R) /\
    ((0 <= m)%R -> t = s).

(** [vector], for a slice whose sum of squares neither overflows nor
    vanishes in binary64: each element is divided by the 2-norm of the
    slice and the squares of the quotients sum to 1. *)
Definition vector_spec (s t : list xreal) : Prop :=
  forall rs,
    s = map Fin rs ->
    (/ 2 ^ 1000 <= Rsum (squares rs) <= 2 ^ 1000)%R ->
    t = map (fun x => Fin (x / R_sqrt.sqrt (Rsum (squares rs)))) rs /\
    Rsum (squares (map (fun x => (x / R_sqrt.sqrt (Rsum (squares rs)))%R) rs))
    = 1%R.

(** The rows of [np.<reduction>(rows, axis, keepdims=True)]. *)
Definition keepdims_rows {T U} (g : list T -> U) (ax : axis)
  (rows : list (list T)) : list (list U) :=
  match ax with
  | AxNone => [[g (concat rows)]]
  | Ax0 => [map g (transpose (ncols rows) rows)]
  | Ax1 => map (fun r => [g r]) rows
  end.

(** A matrix combined element by element with a statistic [g] of the slice
    the element lies in, laid out row by row. *)
Definition apply_slices {T U V} (f : T -> U -> V) (g : list T -> U)
  (ax : axis) (rows : list (list T)) : list (list V) :=
  match ax with
  | AxNone => map (map (fun x => f x (g (concat rows)))) rows
  | Ax0 =>
      map (fun r => zip_with f r (map g (transpose (ncols rows) rows))) rows
  | Ax1 => map (fun r => map (fun x => f x (g r)) r) rows
  end.

(** Rows of one length; unlike a [matrix], the array may be empty. *)
Definition rectangular {T} (rows : list (list T)) : Prop :=
  Forall (fun r => length r = ncols rows) rows.

(** An array numpy can hold: a two-dimensional one is rectangular. *)
Definition well_formed {T} (a : arr T) : Prop :=
  match a with
  | A2 rows => rectangular rows
  | _ => True
  end.

(** The 2-norm of a slice, as [linalg.norm] computes it. *)
Definition l2 {F} {FL : Floating F} (s : list F) : F :=
  fl_sqrt (list_sum (map (fun e => num_mul e e) s)).

Definition has_zero (s : list Z) : bool :=
  existsb (fun z => (z =? 0)%Z) s.

(** The increment [add1to0] builds from the flags of [np.any]. *)
Definition increment_of {F} {FL : Floating F} (flags : list bool) : list F :=
  map (fun b : bool => if b then fl_of_Z 1 else num_zero) flags.

(** * Properties *)

(** ** Lists, broadcasting and slices *)

Section Structure.
Context {T U V : Type}.

Lemma stretch_length (l : list T) : stretch (length l) l = l.
Proof.
  destruct l as [|x [|y l]]; reflexivity.
Qed.

Lemma stretch_eq (k : nat) (l : list T) : length l = k -> stretch k l = l.
Proof. intros <-. apply stretch_length. Qed.

Lemma zip_with_repeat_r (f : T -> U -> V) (l : list T) (c : U) :
  zip_with f l (repeat c (length l)) = map (fun x => f x c) l.
Proof.
  induction l as [|x l IH]; simpl; [reflexivity|].
  now rewrite IH.
Qed.

Lemma zip_with_map_same (f : T -> U -> V) (g : T -> U) (l : list T) :
  zip_with f l (map g l) = map (fun x => f x (g x)) l.
Proof.
  induction l as [|x l IH]; simpl; [reflexivity|].
  now rewrite IH.
Qed.

Lemma zip_with_map_l_same (f : T -> U -> V) (h : U -> T) (l : list U) :
  zip_with f (map h l) l = map (fun x => f (h x) x) l.
Proof.
  induction l as [|x l IH]; simpl; [reflexivity|].
  now rewrite IH.
Qed.

Lemma ncols_map (h : T -> U) (rows : list (list T)) :
  ncols (map (map h) rows) = ncols rows.
Proof. destruct rows; simpl; [reflexivity|]. apply length_map. Qed.

Lemma zip_with_length (f : T -> U -> V) (l : list T) (l' : list U) :
  length l = length l' -> length (zip_with f l l') = length l.
Proof.
  revert l'; induction l as [|x l IH]; intros [|y l'] H; simpl in *;
    try discriminate; [reflexivity|].
  f_equal. apply IH. now injection H.
Qed.

Lemma bdim_same (p : nat) : bdim p p = Some p.
Proof. unfold bdim. now rewrite Nat.eqb_refl. Qed.

Lemma bdim_one_r (p : nat) : bdim p 1 = Some p.
Proof.
  unfold bdim. destruct (Nat.eqb_spec p 1) as [->|]; reflexivity.
Qed.

End Structure.

Section Transpose.
Context {T : Type}.

Lemma transpose_length (n : nat) (rows : list (list T)) :
  Forall (fun r => length r = n) rows -> length (transpose n rows) = n.
Proof.
  induction 1 as [|r rs Hr _ IH]; simpl.
  - apply repeat_length.
  - unfold zip_cons. rewrite zip_with_length; congruence.
Qed.

Lemma zip_cons_column_length (k : nat) (r : list T) (cols : list (list T)) :
  Forall (fun c => length c = k) cols ->
  Forall (fun c => length c = S k) (zip_cons r cols).
Proof.
  unfold zip_cons. intros H. revert r.
  induction H as [|c cols Hc _ IH]; intros [|x r]; simpl; constructor.
  - simpl. now f_equal.
  - apply IH.
Qed.

Lemma transpose_column_length (n : nat) (rows : list (list T)) :
  Forall (fun c => length c = length rows) (transpose n rows).
Proof.
  induction rows as [|r rs IH]; simpl.
  - induction n; simpl; constructor; auto.
  - now apply zip_cons_column_length.
Qed.

End Transpose.

Section Broadcast.
Context {T U V : Type} (f : T -> U -> V) (g : list T -> U).

Lemma reduce_keepdims (rows : list (list T)) (ax : axis) :
  reduce g true (A2 rows) ax = Ok (A2 (keepdims_rows g ax rows)).
Proof.
  destruct ax; simpl; try reflexivity.
  now rewrite map_map.
Qed.

Lemma zip_row_scalar (n : nat) (r : list T) (c : U) :
  length r = n ->
  zip_with f (stretch n r) (stretch n [c]) = map (fun x => f x c) r.
Proof.
  intros H. rewrite (stretch_eq r H). simpl. subst n.
  apply zip_with_repeat_r.
Qed.

Lemma zip_row_vector (n : nat) (r : list T) (cs : list U) :
  length r = n -> length cs = n ->
  zip_with f (stretch n r) (stretch n cs) = zip_with f r cs.
Proof.
  intros Hr Hc. now rewrite (stretch_eq r Hr), (stretch_eq cs Hc).
Qed.

Lemma broadcast_rows_scalar (rows : list (list T)) (c : U) :
  Forall (fun r => length r = ncols rows) rows ->
  broadcast_rows f rows [[c]] = Ok (map (map (fun x => f x c)) rows).
Proof.
  intros Hrect. unfold broadcast_rows.
  change (length [[c]]) with 1%nat. change (ncols [[c]]) with 1%nat.
  rewrite !bdim_one_r. f_equal.
  rewrite stretch_length.
  change (stretch (length rows) [[c]]) with (repeat [c] (length rows)).
  rewrite zip_with_repeat_r.
  apply map_ext_Forall. revert Hrect. apply Forall_impl.
  intros r Hr. now apply zip_row_scalar.
Qed.

Lemma broadcast_rows_column (rows : list (list T)) (h : list T -> U) :
  rows <> [] ->
  Forall (fun r => length r = ncols rows) rows ->
  broadcast_rows f rows (map (fun r => [h r]) rows)
  = Ok (map (fun r => map (fun x => f x (h r)) r) rows).
Proof.
  intros Hne Hrect. unfold broadcast_rows.
  rewrite length_map, bdim_same.
  assert (Hc : ncols (map (fun r => [h r]) rows) = 1%nat)
    by (destruct rows; [congruence | reflexivity]).
  rewrite Hc, bdim_one_r. f_equal.
  rewrite stretch_length, (stretch_eq _ (length_map _ rows)).
  rewrite zip_with_map_same.
  apply map_ext_Forall. revert Hrect. apply Forall_impl.
  intros r Hr. now apply zip_row_scalar.
Qed.

Lemma broadcast_rows_row (rows : list (list T)) (cs : list U) :
  length cs = ncols rows ->
  Forall (fun r => length r = ncols rows) rows ->
  broadcast_rows f rows [cs] = Ok (map (fun r => zip_with f r cs) rows).
Proof.
  intros Hcs Hrect. unfold broadcast_rows.
  change (length [cs]) with 1%nat. change (ncols [cs]) with (length cs).
  rewrite bdim_one_r, Hcs, bdim_same. f_equal.
  rewrite stretch_length.
  change (stretch (length rows) [cs]) with (repeat cs (length rows)).
  rewrite zip_with_repeat_r.
  apply map_ext_Forall. revert Hrect. apply Forall_impl.
  intros r Hr. now apply zip_row_vector.
Qed.

(** Broadcasting a matrix against its own [keepdims] reduction combines
    every element with the statistic of its slice. *)
Lemma broadcast_keepdims (rows : list (list T)) (ax : axis) :
  matrix rows ->
  broadcast2 f (A2 rows) (A2 (keepdims_rows g ax rows))
  = Ok (A2 (apply_slices f g ax rows)).
Proof.
  intros (Hne & Hcol & Hrect). unfold broadcast2, view2, rmap.
  destruct ax; unfold keepdims_rows, apply_slices.
  - now rewrite broadcast_rows_scalar.
  - rewrite broadcast_rows_row; trivial.
    rewrite length_map. now apply transpose_length.
  - now rewrite broadcast_rows_column.
Qed.

Lemma zip_cons_zip_with (r : list T) (cols : list (list T)) (cs : list U) :
  zip_with cons (zip_with f r cs)
    (zip_with (fun col c => map (fun x => f x c) col) cols cs)
  = zip_with (fun col c => map (fun x => f x c) col) (zip_with cons r cols) cs.
Proof.
  revert cols cs.
  induction r as [|x r IH]; intros [|col cols] [|c cs]; simpl;
    try reflexivity.
  now rewrite IH.
Qed.

Lemma transpose_zip_rows (n : nat) (rows : list (list T)) (cs : list U) :
  length cs = n ->
  transpose n (map (fun r => zip_with f r cs) rows)
  = zip_with (fun col c => map (fun x => f x c) col) (transpose n rows) cs.
Proof.
  intros Hcs. induction rows as [|r rs IH]; simpl.
  - subst n. induction cs as [|c cs IHc]; simpl; [reflexivity|].
    now rewrite <- IHc.
  - rewrite IH. unfold zip_cons. apply zip_cons_zip_with.
Qed.

Lemma ncols_apply_slices (rows : list (list T)) (ax : axis) :
  matrix rows -> ncols (apply_slices f g ax rows) = ncols rows.
Proof.
  intros (Hne & Hcol & Hrect).
  destruct rows as [|r rs]; [congruence|].
  destruct ax; unfold apply_slices, ncols; simpl;
    rewrite ?length_map; try reflexivity.
  apply zip_with_length. rewrite length_map.
  symmetry. now apply (transpose_length (rows := r :: rs)).
Qed.

Lemma shape_apply_slices (rows : list (list T)) (ax : axis) :
  matrix rows ->
  shape (A2 (apply_slices f g ax rows)) = shape (A2 rows).
Proof.
  intros H. simpl. rewrite (ncols_apply_slices ax H). f_equal.
  destruct ax; apply length_map.
Qed.

(** Slice by slice, the result is the slice mapped with its statistic. *)
Lemma slices_apply_slices (rows : list (list T)) (ax : axis) :
  matrix rows ->
  slices ax (apply_slices f g ax rows)
  = map (fun s => map (fun x => f x (g s)) s) (slices ax rows).
Proof.
  intros H. destruct ax.
  - simpl. now rewrite concat_map.
  - unfold slices. rewrite (ncols_apply_slices Ax0 H).
    destruct H as (Hne & Hcol & Hrect). unfold apply_slices.
    rewrite transpose_zip_rows.
    + apply zip_with_map_same.
    + rewrite length_map. now apply transpose_length.
  - reflexivity.
Qed.

End Broadcast.

Section Elementwise.
Context {T U V : Type} (f : T -> U -> V).

(** Two arrays of one shape combine element by element. *)
Lemma broadcast_rows_same (h : U -> T) (rows : list (list U)) :
  Forall (fun r => length r = ncols rows) rows ->
  broadcast_rows f (map (map h) rows) rows
  = Ok (map (map (fun x => f (h x) x)) rows).
Proof.
  intros Hrect. unfold broadcast_rows.
  rewrite length_map, ncols_map, !bdim_same. f_equal.
  rewrite stretch_length, (stretch_eq _ (length_map _ rows)).
  rewrite zip_with_map_l_same.
  apply map_ext_Forall. revert Hrect. apply Forall_impl.
  intros r Hr.
  rewrite (stretch_eq r Hr), (stretch_eq (map h r)).
  - apply zip_with_map_l_same.
  - now rewrite length_map.
Qed.

Lemma keepdims_rows_rect (g : list T -> U) (ax : axis)
  (rows : list (list T)) :
  let K := keepdims_rows g ax rows in
  Forall (fun r => length r = ncols K) K.
Proof.
  destruct ax; simpl.
  - repeat constructor.
  - repeat constructor.
  - destruct rows as [|r rs]; simpl; constructor; [reflexivity|].
    apply Forall_map. apply Forall_forall. reflexivity.
Qed.

Lemma map_keepdims_rows {W} (g : list T -> U) (d : U -> W) (ax : axis)
  (rows : list (list T)) :
  map (map d) (keepdims_rows g ax rows)
  = keepdims_rows (fun s => d (g s)) ax rows.
Proof.
  destruct ax; simpl; try reflexivity.
  - now rewrite map_map.
  - rewrite map_map. reflexivity.
Qed.

End Elementwise.

(** ** Slices of a matrix *)

Section Slices.
Context {T : Type}.

Lemma reduced_size_matrix (rows : list (list T)) (ax : axis) :
  matrix rows -> (reduced_size (A2 rows) ax =? 0)%nat = false.
Proof.
  intros (Hne & Hcol & _). apply Nat.eqb_neq.
  assert (length rows <> 0%nat) by (destruct rows; simpl; congruence).
  destruct ax; simpl; nia.
Qed.

Lemma slices_nonempty (rows : list (list T)) (ax : axis) :
  matrix rows -> Forall (fun s => s <> []) (slices ax rows).
Proof.
  intros (Hne & Hcol & Hrect). destruct ax; simpl.
  - constructor; [|constructor].
    destruct rows as [|[|x r] rs]; unfold ncols in *; simpl in *;
      congruence.
  - generalize (transpose_column_length (ncols rows) rows).
    apply Forall_impl. intros c Hc ->.
    destruct rows; simpl in *; congruence.
  - revert Hrect. apply Forall_impl. intros r Hr ->. simpl in Hr.
    congruence.
Qed.

Lemma Forall_zip_cons (P : T -> Prop) (r : list T) (cols : list (list T)) :
  Forall P r -> Forall (Forall P) cols -> Forall (Forall P) (zip_cons r cols).
Proof.
  unfold zip_cons. intros Hr. revert cols.
  induction Hr as [|x r Hx _ IH]; intros [|c cols] Hc; simpl;
    constructor; inversion Hc; subst; auto.
Qed.

Lemma Forall_slices (P : T -> Prop) (rows : list (list T)) (ax : axis) :
  Forall (Forall P) rows -> Forall (Forall P) (slices ax rows).
Proof.
  intros H. destruct ax; simpl; trivial.
  - constructor; [|constructor]. now apply Forall_concat.
  - generalize (ncols rows). intros n.
    induction H as [|r rs Hr _ IH]; simpl.
    + induction n; simpl; constructor; auto.
    + now apply Forall_zip_cons.
Qed.

Lemma Forall2_map_r {A B} (P : A -> B -> Prop) (h : A -> B) (l : list A) :
  Forall (fun s => P s (h s)) l -> Forall2 P l (map h l).
Proof.
  induction 1; simpl; constructor; auto.
Qed.

End Slices.

(** ** The operators in closed form

    On a matrix every operator is [apply_slices] of an element operation
    and a statistic of the slice. *)

Section ClosedForms.
Context {F : Type} {FL : Floating F}.


Lemma max_closed (M : ndarray F) (rows : list (list F)) (ax : axis) :
  asarray_float M = A2 rows -> matrix rows ->
  norm.max M ax = Ok (FloatArr (A2 (apply_slices fl_div list_max ax rows))).
Proof.
  intros HM Hm. unfold norm.max, np_max, reduce_noidentity.
  rewrite HM, reduce_keepdims. cbn [bind].
  rewrite (reduced_size_matrix ax Hm). cbn [bind].
  now rewrite broadcast_keepdims.
Qed.

Lemma np_min_at_matrix {T} {N : Num T} (rows : list (list T)) (ax : axis) :
  matrix rows ->
  np_min_at (A2 rows) ax = Ok (A2 (keepdims_rows list_min ax rows)).
Proof.
  intros Hm. unfold np_min_at, reduce_noidentity.
  rewrite reduce_keepdims. cbn [bind].
  now rewrite (reduced_size_matrix ax Hm).
Qed.

Lemma push_negatives_int_closed (rows : list (list Z)) (ax : axis) :
  matrix rows ->
  norm.push_negatives (F := F) (IntArr (A2 rows)) ax
  = Ok (IntArr (A2 (apply_slices sub64
         (fun s => mul64 (Z.b2z (list_min s <? 0)%Z) (list_min s))
         ax rows))).
Proof.
  intros Hm. unfold norm.push_negatives, np_min.
  rewrite (np_min_at_matrix ax Hm). cbn [bind rmap].
  unfold nd_lt, py_int, promote2, broadcast2, view2.
  rewrite broadcast_rows_scalar by apply keepdims_rows_rect.
  cbn [bind rmap]. unfold nd_mul, promote2, amap.
  rewrite map_map.
  rewrite (map_ext (fun r => map Z.b2z (map (fun x => (x <? 0)%Z) r))
             (map (fun x => Z.b2z (x <? 0)%Z)))
    by (intros r; apply map_map).
  unfold broadcast2, view2.
  rewrite broadcast_rows_same by apply keepdims_rows_rect.
  cbn [bind rmap]. rewrite map_keepdims_rows.
  unfold nd_sub, promote2. now rewrite broadcast_keepdims.
Qed.

Lemma push_negatives_float_closed (rows : list (list F)) (ax : axis) :
  matrix rows ->
  norm.push_negatives (FloatArr (A2 rows)) ax
  = Ok (FloatArr (A2 (apply_slices num_sub
         (fun s => num_mul (of_bool (num_ltb (list_min s) (fl_of_Z 0)))
                           (list_min s)) ax rows))).
Proof.
  intros Hm. unfold norm.push_negatives, np_min.
  rewrite (np_min_at_matrix ax Hm). cbn [bind rmap].
  unfold nd_lt, py_int, promote2, asarray_float, amap, broadcast2, view2.
  rewrite broadcast_rows_scalar by apply keepdims_rows_rect.
  cbn [bind rmap]. unfold nd_mul, promote2, asarray_float, amap.
  rewrite map_map.
  rewrite (map_ext
             (fun r => map (fun b : bool => of_bool b)
                         (map (fun x => num_ltb x (fl_of_Z 0)) r))
             (map (fun x => of_bool (num_ltb x (fl_of_Z 0)))))
    by (intros r; apply map_map).
  unfold broadcast2, view2.
  rewrite broadcast_rows_same by apply keepdims_rows_rect.
  cbn [bind rmap]. rewrite map_keepdims_rows.
  unfold nd_sub, promote2, asarray_float. now rewrite broadcast_keepdims.
Qed.

End ClosedForms.

(** ** int64 arithmetic *)

Section Int64.
Local Open Scope Z_scope.

Lemma fits_int64_spec (z : Z) : fits_int64 z = true <-> int64_value z.
Proof.
  unfold fits_int64, int64_value. rewrite andb_true_iff, !Z.leb_le. tauto.
Qed.

Lemma wrap64_fits (z : Z) : int64_value z -> wrap64 z = z.
Proof.
  unfold int64_value, wrap64, int64_min, int64_max. intros H.
  rewrite Z.mod_small by lia. lia.
Qed.

(** An operation whose exact result is an int64 value does not wrap. *)
Lemma int64_op_exact (op : Z -> Z -> Z) (x y : Z) :
  int64_value (op x y) -> int64_op op x y = op x y.
Proof.
  intros H. unfold int64_op.
  destruct (fits_int64 x && fits_int64 y); [now apply wrap64_fits | reflexivity].
Qed.

Lemma sub64_exact (x y : Z) : int64_value (x - y) -> sub64 x y = x - y.
Proof. apply int64_op_exact. Qed.

Lemma sub64_zero (x : Z) : sub64 x 0 = x.
Proof.
  unfold sub64, int64_op. rewrite Z.sub_0_r.
  destruct (fits_int64 x) eqn:E; cbn [andb]; [|reflexivity].
  change (fits_int64 0) with true. cbv iota.
  now apply wrap64_fits, fits_int64_spec.
Qed.

Lemma mul64_b2z (b : bool) (m : Z) : mul64 (Z.b2z b) m = Z.b2z b * m.
Proof.
  unfold mul64, int64_op.
  destruct (fits_int64 (Z.b2z b) && fits_int64 m) eqn:E; [|reflexivity].
  apply andb_true_iff in E as [_ E]. apply fits_int64_spec in E.
  apply wrap64_fits. destruct b; cbn [Z.b2z].
  - now rewrite Z.mul_1_l.
  - rewrite Z.mul_0_l. unfold int64_value, int64_min, int64_max. lia.
Qed.

(** Adding 1 to the largest int64 gives the smallest. *)
Lemma add64_one (x : Z) :
  int64_value x ->
  add64 x 1 = if x =? int64_max then int64_min else x + 1.
Proof.
  intros H. unfold add64, int64_op.
  apply fits_int64_spec in H as H'. rewrite H'.
  change (fits_int64 1) with true. cbn [andb].
  destruct (Z.eqb_spec x int64_max) as [->|Hne]; [reflexivity|].
  apply wrap64_fits. unfold int64_value, int64_min, int64_max in *. lia.
Qed.

End Int64.

(** ** Exact arithmetic *)

Section Exact.
Local Open Scope R_scope.



Lemma Reqb_neq (a b : R) : a <> b -> Reqb a b = false.
Proof. unfold Reqb. destruct (Req_dec_T a b); congruence. Qed.

Lemma Rltb_lt (a b : R) : Rltb a b = true <-> a < b.
Proof. unfold Rltb. destruct (Rlt_dec a b); split; congruence. Qed.

Lemma Rltb_ge (a b : R) : Rltb a b = false <-> b <= a.
Proof.
  unfold Rltb. destruct (Rlt_dec a b); split; try congruence; lra.
Qed.

Lemma xle_Fin (a b : R) : xle (Fin a) (Fin b) <-> a <= b.
Proof.
  unfold xle, xleb, xltb, xeqb, Rltb, Reqb.
  destruct (Rlt_dec a b), (Req_dec_T a b); simpl; split;
    try congruence; lra.
Qed.

Lemma fold_xadd (rs : list R) (a : R) :
  fold_left xadd (map Fin rs) (Fin a) = Fin (fold_left Rplus rs a).
Proof.
  revert a. induction rs as [|r rs IH]; intros a; simpl; [reflexivity|].
  apply IH.
Qed.

Lemma list_sum_Fin (rs : list R) :
  list_sum (map Fin rs) = Fin (fold_left Rplus rs 0).
Proof. apply fold_xadd. Qed.

(** The sum the code folds from the left is the sum of the slice. *)
Lemma fold_left_Rplus (rs : list R) (a : R) :
  fold_left Rplus rs a = a + Rsum rs.
Proof.
  revert a. induction rs as [|r rs IH]; intros a; simpl; [ring|].
  rewrite IH. ring.
Qed.


Lemma Rsum_div (rs : list R) (d : R) :
  Rsum (map (fun x => x / d) rs) = Rsum rs / d.
Proof.
  induction rs as [|r rs IH]; simpl; [unfold Rdiv; ring|].
  rewrite IH. unfold Rdiv. ring.
Qed.



Lemma xdiv_Fin (a d : R) : d <> 0 -> xdiv (Fin a) (Fin d) = Fin (a / d).
Proof. intros H. simpl. now rewrite Reqb_neq. Qed.



End Exact.

(** ** Division by zero in binary64 *)

Section Binary64.
Local Open Scope float_scope.




End Binary64.

(** ** [sum] *)



(** ** [max] *)

Section ExactMax.
Local Open Scope R_scope.

Lemma maximum_Fin (a b : R) : maximum (Fin a) (Fin b) = Fin (Rmax a b).
Proof.
  unfold maximum. cbn. unfold xleb, xltb, xeqb, Rltb, Reqb.
  destruct (Rlt_dec b a), (Req_dec_T b a); cbn; f_equal;
    solve [ symmetry; apply Rmax_left; lra
          | symmetry; apply Rmax_right; lra ].
Qed.

Lemma fold_maximum (rs : list R) (a : R) :
  fold_left maximum (map Fin rs) (Fin a) = Fin (fold_left Rmax rs a).
Proof.
  revert a. induction rs as [|r rs IH]; intros a; simpl; [reflexivity|].
  rewrite maximum_Fin. apply IH.
Qed.

Lemma fold_Rmax_ge_acc (rs : list R) (a : R) : a <= fold_left Rmax rs a.
Proof.
  revert a. induction rs as [|r rs IH]; intros a; simpl; [lra|].
  eapply Rle_trans; [apply (Rmax_l a r) | apply IH].
Qed.

Lemma fold_Rmax_ge_in (rs : list R) (a x : R) :
  In x rs -> x <= fold_left Rmax rs a.
Proof.
  revert a. induction rs as [|r rs IH]; intros a; simpl; [tauto|].
  intros [->|H]; [|now apply IH].
  eapply Rle_trans; [apply (Rmax_r a x) | apply fold_Rmax_ge_acc].
Qed.

Lemma fold_Rmax_in (rs : list R) (a : R) :
  fold_left Rmax rs a = a \/ In (fold_left Rmax rs a) rs.
Proof.
  revert a. induction rs as [|r rs IH]; intros a; simpl; [now left|].
  destruct (IH (Rmax a r)) as [H|H]; [|now right; right].
  rewrite H. unfold Rmax. destruct (Rle_dec a r); auto.
Qed.

(** The maximum of a non-empty finite slice is one of its elements and
    bounds them all. *)
Lemma list_max_Fin (rs : list R) :
  rs <> [] ->
  exists m, list_max (map Fin rs) = Fin m /\ In m rs /\
            forall x, In x rs -> x <= m.
Proof.
  destruct rs as [|a rs]; [congruence|]. intros _.
  exists (fold_left Rmax rs a). split; [|split].
  - apply fold_maximum.
  - destruct (fold_Rmax_in rs a) as [H|H]; [left; now rewrite H | now right].
  - intros x [<-|H]; [apply fold_Rmax_ge_acc | now apply fold_Rmax_ge_in].
Qed.

(** The maximum the code computes is the greatest element of the slice. *)
Lemma list_max_greatest (rs : list R) (m : R) :
  greatest rs m -> list_max (map Fin rs) = Fin m.
Proof.
  intros [Hin Hall].
  assert (Hne : rs <> []) by (destruct rs; [destruct Hin | discriminate]).
  destruct (list_max_Fin Hne) as (m' & -> & Hin' & Hle).
  rewrite Forall_forall in Hall. f_equal.
  apply Rle_antisym; [now apply Hall | now apply Hle].
Qed.

Lemma div_le_one (x m : R) : 0 < m -> x <= m -> x / m <= 1.
Proof.
  intros Hm Hx. unfold Rdiv.
  assert (0 < / m) by now apply Rinv_0_lt_compat.
  assert (m * / m = 1) by (apply Rinv_r; lra).
  nra.
Qed.

(** A slice divided by the maximum the code computes meets [max_spec]. *)
Lemma max_slice_spec (s : list xreal) :
  max_spec s (map (fun x => xdiv x (list_max s)) s).
Proof.
  intros rs m -> Hg. rewrite (list_max_greatest Hg), map_map.
  destruct Hg as [Hin Hall]. split.
  - intros Hpos. apply Forall_map. revert Hall. apply Forall_impl.
    intros x Hx. rewrite xdiv_Fin by lra.
    eexists. split; [reflexivity | now apply div_le_one].
  - intros Hm.
    assert (E : xdiv (Fin m) (Fin m) = Fin 1)
      by (rewrite xdiv_Fin by assumption; f_equal; now field).
    split.
    + apply Forall2_map_r, Forall_forall. now intros x _ ->.
    + apply Exists_exists. exists (xdiv (Fin m) (Fin m)). split; [|exact E].
      now apply (in_map (fun r => xdiv (Fin r) (Fin m))).
Qed.

End ExactMax.

(** C3, as amended.  On every non-empty matrix and for every axis, [max]
    returns a matrix of the same shape; in every slice whose greatest
    element is positive no element of the result exceeds 1, and in every
    slice whose greatest element is not zero the elements that attain it
    become exactly 1, so that at least one element of the result slice is
    1. *)
Theorem max_at_most_one_and_one_attained
  (M : ndarray xreal) (rows : list (list xreal)) (ax : axis) :
  asarray_float M = A2 rows ->
  matrix rows ->
  exists R,
    norm.max M ax = Ok (FloatArr (A2 R)) /\
    shape (A2 R) = shape (A2 rows) /\
    Forall2 max_spec (slices ax rows) (slices ax R).
Proof.
  intros HM Hm.
  exists (apply_slices xdiv list_max ax rows). split; [|split].
  - now apply (max_closed (FL := exact)).
  - now apply shape_apply_slices.
  - rewrite slices_apply_slices by assumption.
    apply Forall2_map_r, Forall_forall. intros s _.
    apply max_slice_spec.
Qed.

(** ** [push_negatives] *)

Section IntMin.
Local Open Scope Z_scope.

Lemma minimum_Z (a b : Z) : minimum a b = Z.min a b.
Proof.
  unfold minimum. cbn. rewrite orb_false_r.
  destruct (Z.leb_spec a b); lia.
Qed.

Lemma fold_minimum_Z (l : list Z) (a : Z) :
  fold_left minimum l a = fold_left Z.min l a.
Proof.
  revert a. induction l as [|x l IH]; intros a; simpl; [reflexivity|].
  now rewrite minimum_Z, IH.
Qed.

Lemma fold_Zmin_le_acc (l : list Z) (a : Z) : fold_left Z.min l a <= a.
Proof.
  revert a. induction l as [|x l IH]; intros a; simpl; [lia|].
  specialize (IH (Z.min a x)). lia.
Qed.

Lemma fold_Zmin_le_in (l : list Z) (a x : Z) :
  In x l -> fold_left Z.min l a <= x.
Proof.
  revert a. induction l as [|y l IH]; intros a; simpl; [tauto|].
  intros [->|H]; [|now apply IH].
  pose proof (fold_Zmin_le_acc l (Z.min a x)). lia.
Qed.

Lemma fold_Zmin_in (l : list Z) (a : Z) :
  fold_left Z.min l a = a \/ In (fold_left Z.min l a) l.
Proof.
  revert a. induction l as [|x l IH]; intros a; simpl; [now left|].
  destruct (IH (Z.min a x)) as [H|H]; [|now right; right].
  rewrite H. destruct (Z.min_spec a x) as [[_ ->]|[_ ->]]; auto.
Qed.

(** The minimum the code computes is the least element of the slice. *)
Lemma list_min_least (s : list Z) : s <> [] -> least_int s (list_min s).
Proof.
  destruct s as [|a l]; [congruence|]. intros _.
  unfold least_int, list_min, fold1. rewrite fold_minimum_Z. split.
  - destruct (fold_Zmin_in l a) as [H|H]; [left; now rewrite H | now right].
  - constructor; [apply fold_Zmin_le_acc|].
    apply Forall_forall. intros x Hx. now apply fold_Zmin_le_in.
Qed.

Lemma least_int_unique (s : list Z) (m m' : Z) :
  least_int s m -> least_int s m' -> m = m'.
Proof.
  intros [Hin Hall] [Hin' Hall']. rewrite Forall_forall in Hall, Hall'.
  specialize (Hall _ Hin'). specialize (Hall' _ Hin). lia.
Qed.

Lemma least_int_nonempty (s : list Z) (m : Z) : least_int s m -> s <> [].
Proof. intros [Hin _]. destruct s; [destruct Hin | discriminate]. Qed.

(** What the code computes on an integer slice meets [push_spec_int]. *)
Lemma push_slice_int (s : list Z) :
  push_spec_int s
    (map (fun x => sub64 x (mul64 (Z.b2z (list_min s <? 0)) (list_min s))) s).
Proof.
  intros m Hm.
  rewrite (least_int_unique (list_min_least (least_int_nonempty Hm)) Hm).
  rewrite mul64_b2z. destruct Hm as [Hin Hall]. split.
  - intros Hneg Hfit.
    replace (m <? 0) with true by (symmetry; now apply Z.ltb_lt).
    cbn [Z.b2z]. rewrite Z.mul_1_l.
    assert (E : map (fun x => sub64 x m) s = map (fun x => x - m) s).
    { apply map_ext_in. intros x Hx. apply sub64_exact.
      rewrite Forall_forall in Hall, Hfit.
      specialize (Hall _ Hx). specialize (Hfit _ Hx).
      unfold int64_value, int64_min, int64_max in *. lia. }
    rewrite E. split; [reflexivity|]. split.
    + apply in_map_iff. exists m. split; [lia | assumption].
    + apply Forall_map. revert Hall. apply Forall_impl. intros; lia.
  - intros Hpos.
    replace (m <? 0) with false by (symmetry; now apply Z.ltb_ge).
    cbn [Z.b2z]. rewrite Z.mul_0_l.
    rewrite (map_ext _ (fun x => x)) by apply sub64_zero.
    apply map_id.
Qed.

End IntMin.

Section ExactMin.
Local Open Scope R_scope.

Lemma minimum_Fin (a b : R) : minimum (Fin a) (Fin b) = Fin (Rmin a b).
Proof.
  unfold minimum. cbn. unfold xleb, xltb, xeqb, Rltb, Reqb.
  destruct (Rlt_dec a b), (Req_dec_T a b); cbn; f_equal;
    solve [ symmetry; apply Rmin_left; lra
          | symmetry; apply Rmin_right; lra ].
Qed.

Lemma fold_minimum (rs : list R) (a : R) :
  fold_left minimum (map Fin rs) (Fin a) = Fin (fold_left Rmin rs a).
Proof.
  revert a. induction rs as [|r rs IH]; intros a; simpl; [reflexivity|].
  rewrite minimum_Fin. apply IH.
Qed.

Lemma fold_Rmin_le_acc (rs : list R) (a : R) : fold_left Rmin rs a <= a.
Proof.
  revert a. induction rs as [|r rs IH]; intros a; simpl; [lra|].
  eapply Rle_trans; [apply IH | apply Rmin_l].
Qed.

Lemma fold_Rmin_le_in (rs : list R) (a x : R) :
  In x rs -> fold_left Rmin rs a <= x.
Proof.
  revert a. induction rs as [|r rs IH]; intros a; simpl; [tauto|].
  intros [->|H]; [|now apply IH].
  eapply Rle_trans; [apply fold_Rmin_le_acc | apply Rmin_r].
Qed.

Lemma fold_Rmin_in (rs : list R) (a : R) :
  fold_left Rmin rs a = a \/ In (fold_left Rmin rs a) rs.
Proof.
  revert a. induction rs as [|r rs IH]; intros a; simpl; [now left|].
  destruct (IH (Rmin a r)) as [H|H]; [|now right; right].
  rewrite H. unfold Rmin. destruct (Rle_dec a r); auto.
Qed.

(** The minimum the code computes is the least element of the slice. *)
Lemma list_min_least_R (rs : list R) (m : R) :
  least rs m -> list_min (map Fin rs) = Fin m.
Proof.
  intros [Hin Hall]. rewrite Forall_forall in Hall.
  destruct rs as [|a rs]; [destruct Hin|].
  unfold list_min, fold1. cbn [map]. rewrite fold_minimum. f_equal.
  apply Rle_antisym.
  - destruct Hin as [<-|Hin];
      [apply fold_Rmin_le_acc | now apply fold_Rmin_le_in].
  - apply Hall.
    destruct (fold_Rmin_in rs a) as [H|H]; [left; now rewrite H | now right].
Qed.

(** What the code computes on a slice of floats meets [push_spec_real]. *)
Lemma push_slice_real (s : list xreal) :
  push_spec_real s
    (map (fun x => xsub x (xmul (of_bool (xltb (list_min s) (Fin 0)))
                                (list_min s))) s).
Proof.
  intros rs m -> _ Hm. rewrite (list_min_least_R Hm), map_map.
  destruct Hm as [Hin Hall]. split.
  - intros Hneg.
    replace (xltb (Fin m) (Fin 0)) with true
      by (symmetry; now apply Rltb_lt).
    cbn [of_bool num_one Num_xreal]. split; [|split].
    + apply map_ext. intros r. cbn. f_equal. ring.
    + apply in_map_iff. exists m. split; [ring | assumption].
    + apply Forall_map. revert Hall. apply Forall_impl. intros; lra.
  - intros Hpos.
    replace (xltb (Fin m) (Fin 0)) with false
      by (symmetry; now apply Rltb_ge).
    cbn [of_bool num_zero Num_xreal]. apply map_ext.
    intros r. cbn. f_equal. ring.
Qed.

End ExactMin.

Lemma push_negatives_int {F : Type} {FL : Floating F}
  (rows : list (list Z)) (ax : axis) :
  matrix rows ->
  exists R,
    norm.push_negatives (F := F) (IntArr (A2 rows)) ax = Ok (IntArr (A2 R)) /\
    shape (A2 R) = shape (A2 rows) /\
    Forall2 push_spec_int (slices ax rows) (slices ax R).
Proof.
  intros Hm. eexists. split; [|split].
  - now apply push_negatives_int_closed.
  - now apply shape_apply_slices.
  - rewrite slices_apply_slices by assumption.
    apply Forall2_map_r, Forall_forall. intros s _.
    apply push_slice_int.
Qed.

Lemma push_negatives_exact (rows : list (list xreal)) (ax : axis) :
  matrix rows ->
  exists R,
    norm.push_negatives (FloatArr (A2 rows)) ax = Ok (FloatArr (A2 R)) /\
    shape (A2 R) = shape (A2 rows) /\
    Forall2 push_spec_real (slices ax rows) (slices ax R).
Proof.
  intros Hm. eexists. split; [|split].
  - now apply (push_negatives_float_closed (FL := exact)).
  - now apply shape_apply_slices.
  - rewrite slices_apply_slices by assumption.
    apply Forall2_map_r, Forall_forall. intros s _.
    apply push_slice_real.
Qed.

(** C5, as amended.  On every non-empty matrix, of int64 values or of
    floats, and for every axis, [push_negatives] returns a matrix of the
    same shape.  A slice whose least element [m] is negative has [m]
    subtracted from each element and its least element becomes 0, provided
    the differences stay within the dtype: no [x - m] above [2^63 - 1] for
    int64, no magnitude above [2^1022] for floats, whose arithmetic is
    taken exact.  A slice whose least element is not negative is kept.  On
    [[-1,2],[3,4]] the three axes give [[0,3],[4,5]], [[0,2],[4,4]] and
    [[0,3],[3,4]]. *)
Theorem push_negatives_shifts_slices_within_range :
  (forall (rows : list (list Z)) (ax : axis),
      matrix rows ->
      Forall (Forall int64_value) rows ->
      exists R,
        norm.push_negatives (F := float) (IntArr (A2 rows)) ax
        = Ok (IntArr (A2 R)) /\
        shape (A2 R) = shape (A2 rows) /\
        Forall2 push_spec_int (slices ax rows) (slices ax R)) /\
  (forall (rows : list (list xreal)) (ax : axis),
      matrix rows ->
      exists R,
        norm.push_negatives (FloatArr (A2 rows)) ax = Ok (FloatArr (A2 R)) /\
        shape (A2 R) = shape (A2 rows) /\
        Forall2 push_spec_real (slices ax rows) (slices ax R)) /\
  (let M : ndarray float := IntArr (A2 [[-1; 2]; [3; 4]]%Z) in
   norm.push_negatives M AxNone = Ok (IntArr (A2 [[0; 3]; [4; 5]]%Z)) /\
   norm.push_negatives M Ax0 = Ok (IntArr (A2 [[0; 2]; [4; 4]]%Z)) /\
   norm.push_negatives M Ax1 = Ok (IntArr (A2 [[0; 3]; [3; 4]]%Z))).
Proof.
  split; [|split].
  - intros rows ax Hm _. now apply push_negatives_int.
  - intros rows ax Hm. now apply push_negatives_exact.
  - repeat split; vm_compute; reflexivity.
Qed.

(** C5, the claim as stated fails in three ways.  On an empty matrix
    [np.min] has no identity and raises, so nothing is returned for
    [[[]]].  On the int64 matrix [[2^63 - 1, -1]] the subtraction wraps
    around: the result is [[-2^63, 0]], whose minimum is not 0.  On the
    binary64 matrix [[2^1023, -2^1023]] the subtraction overflows to
    infinity. *)
Lemma push_negatives_raises_wraps_and_overflows :
  (let M : ndarray float := FloatArr (A2 [[]]) in
   norm.push_negatives M AxNone = Raise ValueError /\
   forall R, norm.push_negatives M AxNone <> Ok R) /\
  (let M : ndarray float := IntArr (A2 [[int64_max; -1]]%Z) in
   norm.push_negatives M AxNone = Ok (IntArr (A2 [[int64_min; 0]]%Z)) /\
   (int64_max - -1 =? int64_min)%Z = false /\
   (int64_min <? 0)%Z = true) /\
  (let M : ndarray float := FloatArr (A2 [[0x1p1023; -0x1p1023]]%float) in
   norm.push_negatives M AxNone
   = Ok (FloatArr (A2 [[infinity; 0]]%float))).
Proof.
  split; [split; [reflexivity | discriminate]|].
  split; [repeat split; vm_compute; reflexivity|].
  vm_compute; reflexivity.
Qed.

(** C6, as amended.  On every non-empty matrix of integers and for every
    axis, [push_negatives] returns a matrix of integers of the same shape:
    nothing is converted to floating point. *)
Theorem push_negatives_keeps_integers
  (rows : list (list Z)) (ax : axis) :
  matrix rows ->
  exists R,
    norm.push_negatives (F := float) (IntArr (A2 rows)) ax
    = Ok (IntArr (A2 R)) /\
    shape (A2 R) = shape (A2 rows).
Proof.
  intros Hm. destruct (push_negatives_int (F := float) ax Hm)
    as (R & HR & Hshape & _).
  now exists R.
Qed.

(** C6, the claim as stated fails on an integer matrix without columns:
    the call raises instead of returning a matrix. *)
Lemma push_negatives_empty_int_matrix_raises :
  let M : ndarray float := IntArr (A2 [[]; []]) in
  norm.push_negatives M Ax1 = Raise ValueError /\
  forall R, norm.push_negatives M Ax1 <> Ok R.
Proof.
  split; [reflexivity | discriminate].
Qed.

(** ** [max], [vector], [add1to0] on concrete inputs *)

(** C3, the claim as stated fails when the maximum of a slice is negative:
    on [[-1,-2]] the result is [[1,2]], in binary64 and in exact
    arithmetic alike, and 2 exceeds 1. *)
Lemma max_negative_maximum_exceeds_one :
  let M (F : Type) : ndarray F := IntArr (A2 [[-1; -2]]%Z) in
  (norm.max (M float) AxNone = Ok (FloatArr (A2 [[1; 2]]%float)) /\
   PrimFloat.leb 2 1 = false) /\
  (exists y, norm.max (M xreal) AxNone = Ok (FloatArr (A2 [[Fin 1; y]])) /\
             ~ xle y (Fin 1)).
Proof.
  split; [split; reflexivity|].
  exists (Fin (-2 / -1)). split.
  - rewrite (max_closed (FL := exact) (IntArr (A2 [[-1; -2]]%Z))
               (rows := [[Fin (-1); Fin (-2)]]) AxNone).
    + cbn [apply_slices map concat app]. unfold list_max, fold1.
      cbn [fold_left]. rewrite maximum_Fin.
      rewrite Rmax_left by lra. cbn [fl_div exact].
      rewrite !xdiv_Fin by lra.
      replace (-1 / -1)%R with 1%R by field. reflexivity.
    + reflexivity.
    + repeat split; try discriminate. repeat constructor.
  - rewrite xle_Fin. lra.
Qed.

(** C1.  [vector] on the docstring's matrix [[1,2],[3,4]] with [axis=1]:
    [linalg.norm] returns the row norms [sqrt 5, 5] as a one-dimensional
    array, which broadcasts along the columns, so that column [j] is
    divided by the norm of row [j].  The rows of the result are not
    normalized: their squared values sum to less than 1/2 and more than 2. *)
Theorem vector_axis1_divides_columns_by_row_norms :
  let M : ndarray float := IntArr (A2 [[1; 2]; [3; 4]]%Z) in
  exists R,
    norm.vector M Ax1 = Ok (FloatArr (A2 R)) /\
    R = [[1 / sqrt 5; 2 / 5]; [3 / sqrt 5; 4 / 5]]%float /\
    map (fun r => list_sum (map (fun x => x * x)%float r) <? 0.5)%float R
    = [true; false] /\
    map (fun r => 2 <? list_sum (map (fun x => x * x)%float r))%float R
    = [false; true].
Proof.
  eexists. split; [vm_compute; reflexivity|].
  repeat split; vm_compute; reflexivity.
Qed.

(** C2.  [add1to0] on [[1,0],[2,3]] with [axis=1]: the flags "row [i] has
    a zero" are laid out as a one-dimensional increment, which broadcasts
    along the columns.  Column 0 is incremented, the zero of row 0 stays,
    and row 1, which has no zero, is changed. *)
Theorem add1to0_axis1_increments_columns :
  let M : ndarray float := IntArr (A2 [[1; 0]; [2; 3]]%Z) in
  norm.add1to0 M Ax1 = Ok (FloatArr (A2 [[2; 0]; [3; 3]]%float)).
Proof. vm_compute. reflexivity. Qed.

(** C10.  [add1to0] on the 2x3 integer matrix [[0,1,2],[3,4,5]] with
    [axis=1]: the increment has one entry per row, its length 2 does not
    broadcast against 3 columns, and the call raises instead of returning
    a matrix of floats. *)
Theorem add1to0_axis1_raises_unless_square :
  let M : ndarray float := IntArr (A2 [[0; 1; 2]; [3; 4; 5]]%Z) in
  norm.add1to0 M Ax1 = Raise ValueError /\
  norm.add1to0 M Ax0
  = Ok (FloatArr (A2 [[1; 1; 2]; [4; 4; 5]]%float)) /\
  norm.add1to0 M AxNone = Ok (IntArr (A2 [[1; 2; 3]; [4; 5; 6]]%Z)).
Proof. repeat split; vm_compute; reflexivity. Qed.

(** ** The validators *)

Section Validators.
Import core.

Lemma in_domain_spec (z : Z) : in_domain z = true <-> z = MIN \/ z = MAX.
Proof.
  unfold in_domain. rewrite orb_true_iff, !Z.eqb_eq. reflexivity.
Qed.

Lemma forallb_in_domain_false (v : list Z) :
  forallb in_domain v = false <->
  exists z, In z v /\ z <> MIN /\ z <> MAX.
Proof.
  split.
  - induction v as [|x v IH]; simpl; [discriminate|].
    destruct (in_domain x) eqn:E; simpl.
    + intros H. destruct (IH H) as (z & Hin & Hz). eauto.
    + intros _. exists x. split; [now left|].
      split; intros ->; discriminate.
  - intros (z & Hin & Hmin & Hmax).
    destruct (forallb in_domain v) eqn:E; [|reflexivity].
    rewrite forallb_forall in E. apply E, in_domain_spec in Hin. tauto.
Qed.

(** C7.  [criteriarr] fails with [ValueOutOfDomain] exactly when some
    element is neither [MIN] nor [MAX], and then leaves no array behind;
    when it succeeds the array it returns holds the input's values, in
    number and order. *)
Theorem criteriarr_fails_iff_out_of_domain (h : store) (x : pyseq) :
  (snd (criteriarr h x) = Raise ValueOutOfDomain <->
   exists z, In z (contents h x) /\ z <> MIN /\ z <> MAX) /\
  (forall e, snd (criteriarr h x) = Raise e ->
             e = ValueOutOfDomain /\ fst (criteriarr h x) = h) /\
  (forall r, snd (criteriarr h x) = Ok r ->
             cells (fst (criteriarr h x)) r = contents h x).
Proof.
  rewrite <- forallb_in_domain_false. unfold criteriarr.
  destruct (forallb in_domain (contents h x)) eqn:E.
  - destruct x as [l|r0]; simpl; (split; [|split]);
      try (intros; discriminate); try (split; discriminate).
    + intros r [= <-]. now rewrite Nat.eqb_refl.
    + now intros r [= <-].
  - simpl. split; [|split]; try discriminate; try tauto.
    intros e [= <-]. auto.
Qed.

(** C8.  Given an array whose elements are all [MIN] or [MAX],
    [criteriarr] returns that very array and allocates nothing. *)
Theorem criteriarr_returns_the_same_array (h : store) (r : ref) :
  Forall (fun z => z = MIN \/ z = MAX) (cells h r) ->
  criteriarr h (Array r) = (h, Ok r).
Proof.
  intros H. unfold criteriarr. simpl.
  replace (forallb in_domain (cells h r)) with true; [reflexivity|].
  symmetry. apply forallb_forall. rewrite Forall_forall in H.
  intros z Hz. apply in_domain_spec. auto.
Qed.

End Validators.

Section MatrixShape.
Import core.

Lemma row_length_PyList (items : list pyobj) :
  Forall (fun e => is_scalar e = true) items ->
  row_length (PyList items) = Some (length items).
Proof.
  intros H. simpl.
  replace (forallb is_scalar items) with true; [reflexivity|].
  symmetry. apply forallb_forall. now apply Forall_forall.
Qed.

Lemma row_length_elim (o : pyobj) (n : nat) :
  row_length o = Some n ->
  o = PyList (items_of o) /\
  Forall (fun e => is_scalar e = true) (items_of o) /\
  length (items_of o) = n.
Proof.
  destruct o as [z|items]; simpl; [discriminate|].
  destruct (forallb is_scalar items) eqn:E; [|discriminate].
  intros [= <-]. repeat split.
  apply Forall_forall. now apply forallb_forall.
Qed.

Lemma same_length_elim (n : nat) (o : pyobj) :
  same_length n o = true -> row_length o = Some n.
Proof.
  unfold same_length. destruct (row_length o) as [k|]; [|discriminate].
  intros H. apply Nat.eqb_eq in H. now subst.
Qed.

Lemma same_length_intro (n : nat) (o : pyobj) :
  row_length o = Some n -> same_length n o = true.
Proof. unfold same_length. intros ->. apply Nat.eqb_refl. Qed.

(** Rows of scalars of one length are the [PyList]s of their items. *)
Lemma rows_of_equal_rows (n : nat) (l : list pyobj) :
  Forall (fun o => row_length o = Some n) l ->
  l = map PyList (map items_of l) /\
  Forall (Forall (fun e => is_scalar e = true)) (map items_of l) /\
  Forall (fun r => length r = n) (map items_of l).
Proof.
  induction 1 as [|o l Ho _ (IH1 & IH2 & IH3)]; simpl.
  - repeat split; constructor.
  - destruct (row_length_elim _ Ho) as (E & Hs & Hl).
    repeat split; [|now constructor|now constructor].
    now rewrite <- E, <- IH1.
Qed.

Lemma is_mtx_nested (r : pyobj) (rs : list pyobj) :
  is_mtx (Nested (PyList (r :: rs))) = true <->
  exists n, Forall (fun o => row_length o = Some n) (r :: rs).
Proof.
  simpl. split.
  - destruct (row_length r) as [n|] eqn:E; [|discriminate].
    intros H. exists n. constructor; [assumption|].
    apply Forall_forall. intros o Ho. apply same_length_elim.
    rewrite forallb_forall in H. auto.
  - intros (n & H). inversion H as [|? ? Hr Hrs]; subst. rewrite Hr.
    apply forallb_forall. rewrite Forall_forall in Hrs.
    intros o Ho. apply same_length_intro. auto.
Qed.

Lemma is_mtx_ndarr (r : list pyobj) (rs : list (list pyobj)) :
  is_mtx (NdArr (A2 (r :: rs))) = true <->
  Forall (fun r' => length r' = length r) (r :: rs).
Proof.
  simpl. rewrite forallb_forall, Forall_cons_iff, Forall_forall.
  split.
  - intros H. split; [reflexivity|]. intros x Hx. now apply Nat.eqb_eq, H.
  - intros [_ H] x Hx. now apply Nat.eqb_eq, H.
Qed.

Lemma is_mtx_correct (x : mtx_input) :
  is_mtx x = true <-> two_dimensional_rectangular x.
Proof.
  unfold two_dimensional_rectangular. destruct x as [o|a].
  - destruct o as [z|[|r rs]].
    + split; [discriminate|]. intros (rows & n & [E _] & _). discriminate.
    + split; [discriminate|].
      intros ([|? ?] & n & [E _] & Hne & _); [congruence|discriminate].
    + rewrite is_mtx_nested. split.
      * intros (n & H). destruct (rows_of_equal_rows H) as (E & Hs & Hl).
        exists (map items_of (r :: rs)), n. simpl. repeat split; auto.
        -- now rewrite E at 1.
        -- discriminate.
      * intros (rows & n & [E Hs] & Hne & Hl). exists n.
        injection E as E. rewrite E. clear E Hne.
        induction rows as [|r0 rows IH]; simpl; constructor.
        -- inversion Hs; inversion Hl; subst.
           now apply row_length_PyList.
        -- inversion Hs; inversion Hl; subst. auto.
  - destruct a as [e|v|[|r rs]];
      try (split; [discriminate|]; intros (rows & n & E & Hne & _);
           simpl in E; congruence).
    rewrite is_mtx_ndarr. split.
    + intros H. exists (r :: rs), (length r). simpl.
      repeat split; auto. discriminate.
    + intros (rows & n & E & _ & Hl). simpl in E. injection E as <-.
      inversion Hl as [|? ? Hr Hrs]; subst. constructor; [reflexivity|].
      revert Hrs. apply Forall_impl. auto.
Qed.

Lemma is_mtx_asarray (o : pyobj) :
  is_mtx (NdArr (asarray_obj o)) = is_mtx (Nested o).
Proof.
  destruct o as [z|[|r rs]]; try reflexivity. simpl.
  destruct (row_length r) as [n|] eqn:E; [|reflexivity].
  destruct (forallb (same_length n) rs) eqn:H; [|reflexivity].
  simpl. apply forallb_forall. intros x Hx.
  apply in_map_iff in Hx as (o & <- & Ho).
  rewrite forallb_forall in H. apply H, same_length_elim in Ho.
  apply Nat.eqb_eq.
  destruct (row_length_elim _ E) as (_ & _ & ->).
  now destruct (row_length_elim _ Ho) as (_ & _ & ->).
Qed.

End MatrixShape.

(** C9.  [is_mtx] is a total predicate: it answers true exactly for the
    two-dimensional rectangular inputs, in nested-sequence and in array
    form alike, and on the six test cases [[1,2],[1,2]], [[1],[1]],
    [[1,2],[1]], [1], [1,2,3] and [] it answers true, true, false, false,
    false, false in both forms. *)
Theorem is_mtx_iff_two_dimensional_rectangular :
  (forall x, core.is_mtx x = true <-> core.two_dimensional_rectangular x) /\
  (forall o,
      core.is_mtx (core.NdArr (core.asarray_obj o))
      = core.is_mtx (core.Nested o)) /\
  (let row := fun l => core.PyList (map core.PyNum l) in
   let cases :=
     [ core.PyList [row [1; 2]; row [1; 2]];
       core.PyList [row [1]; row [1]];
       core.PyList [row [1; 2]; row [1]];
       row [1];
       row [1; 2; 3];
       core.PyList [] ]%Z in
   map (fun o => core.is_mtx (core.Nested o)) cases
   = [true; true; false; false; false; false] /\
   map (fun o => core.is_mtx (core.NdArr (core.asarray_obj o))) cases
   = [true; true; false; false; false; false]).
Proof.
  split; [exact is_mtx_correct|].
  split; [exact is_mtx_asarray|].
  split; reflexivity.
Qed.

(** ** The theorems at concrete inputs *)

Ltac concrete_matrix :=
  repeat split; try discriminate; repeat constructor.



Lemma max_at_most_one_and_one_attained_witness :
  let rows := [[Fin 1; Fin 2]; [Fin 3; Fin 4]] in
  exists R,
    norm.max (F := xreal) (IntArr (A2 [[1; 2]; [3; 4]]%Z)) Ax0
    = Ok (FloatArr (A2 R)) /\
    shape (A2 R) = shape (A2 rows) /\
    Forall2 max_spec (slices Ax0 rows) (slices Ax0 R).
Proof.
  apply (max_at_most_one_and_one_attained (IntArr (A2 [[1; 2]; [3; 4]]%Z))
           (rows := [[Fin 1; Fin 2]; [Fin 3; Fin 4]]) Ax0).
  - reflexivity.
  - concrete_matrix.
Defined.

Lemma push_negatives_shifts_slices_within_range_witness :
  let rows := [[-1; 2]; [3; 4]]%Z in
  exists R,
    norm.push_negatives (F := float) (IntArr (A2 rows)) Ax0
    = Ok (IntArr (A2 R)) /\
    shape (A2 R) = shape (A2 rows) /\
    Forall2 push_spec_int (slices Ax0 rows) (slices Ax0 R).
Proof.
  apply (proj1 push_negatives_shifts_slices_within_range
           [[-1; 2]; [3; 4]]%Z Ax0).
  - concrete_matrix.
  - repeat constructor; discriminate.
Defined.

Lemma push_negatives_keeps_integers_witness :
  let rows := [[-1; 2]; [3; 4]]%Z in
  exists R,
    norm.push_negatives (F := float) (IntArr (A2 rows)) Ax1
    = Ok (IntArr (A2 R)) /\
    shape (A2 R) = shape (A2 rows).
Proof.
  apply (push_negatives_keeps_integers (rows := [[-1; 2]; [3; 4]]%Z) Ax1).
  concrete_matrix.
Defined.

Lemma criteriarr_returns_the_same_array_witness :
  let h := {| core.next := 1;
              core.cells := fun _ => [core.MAX; core.MIN; core.MAX] |} in
  core.criteriarr h (core.Array 0) = (h, Ok 0%nat).
Proof.
  apply (criteriarr_returns_the_same_array
           {| core.next := 1;
              core.cells := fun _ => [core.MAX; core.MIN; core.MAX] |} 0).
  repeat apply Forall_cons; try apply Forall_nil;
    solve [now left | now right].
Defined.

(** ** The docstrings of norm.py, run in binary64 *)

Example sum_docstring :
  let M : ndarray float := IntArr (A2 [[1; 2]; [3; 4]]%Z) in
  norm.sum M AxNone
  = Ok (FloatArr (A2 [[1 / 10; 2 / 10]; [3 / 10; 4 / 10]]%float)) /\
  norm.sum M Ax0
  = Ok (FloatArr (A2 [[1 / 4; 2 / 6]; [3 / 4; 4 / 6]]%float)) /\
  norm.sum M Ax1
  = Ok (FloatArr (A2 [[1 / 3; 2 / 3]; [3 / 7; 4 / 7]]%float)).
Proof. repeat split; vm_compute; reflexivity. Qed.

Example max_docstring :
  let M : ndarray float := IntArr (A2 [[1; 2]; [3; 4]]%Z) in
  norm.max M AxNone
  = Ok (FloatArr (A2 [[0.25; 0.5]; [0.75; 1]]%float)) /\
  norm.max M Ax0 = Ok (FloatArr (A2 [[1 / 3; 0.5]; [1; 1]]%float)) /\
  norm.max M Ax1 = Ok (FloatArr (A2 [[0.5; 1]; [0.75; 1]]%float)).
Proof. repeat split; vm_compute; reflexivity. Qed.

Example vector_docstring :
  let M : ndarray float := IntArr (A2 [[1; 2]; [3; 4]]%Z) in
  norm.vector M AxNone
  = Ok (FloatArr (A2 [[1 / sqrt 30; 2 / sqrt 30];
                      [3 / sqrt 30; 4 / sqrt 30]]%float)) /\
  norm.vector M Ax0
  = Ok (FloatArr (A2 [[1 / sqrt 10; 2 / sqrt 20];
                      [3 / sqrt 10; 4 / sqrt 20]]%float)).
Proof. repeat split; vm_compute; reflexivity. Qed.

Example add1to0_docstring :
  norm.add1to0 (F := float) (IntArr (A2 [[1; 2]; [3; 4]]%Z)) AxNone
  = Ok (IntArr (A2 [[1; 2]; [3; 4]]%Z)) /\
  norm.add1to0 (F := float) (IntArr (A2 [[0; 1]; [2; 3]]%Z)) AxNone
  = Ok (IntArr (A2 [[1; 2]; [3; 4]]%Z)).
Proof. repeat split; vm_compute; reflexivity. Qed.

Example sum_of_zero_slice :
  norm.sum (F := float) (IntArr (A2 [[1; -1]; [0; 0]]%Z)) Ax1
  = Ok (FloatArr (A2 [[infinity; neg_infinity]; [nan; nan]])).
Proof. vm_compute. reflexivity. Qed.

(** * Further properties of norm.py *)

(** ** Arrays of any size *)

Section Rectangular.
Context {T U V : Type} (f : T -> U -> V) (g : list T -> U).

Lemma broadcast_keepdims_rect (rows : list (list T)) (ax : axis) :
  rectangular rows ->
  broadcast2 f (A2 rows) (A2 (keepdims_rows g ax rows))
  = Ok (A2 (apply_slices f g ax rows)).
Proof.
  intros Hrect. unfold broadcast2, view2, rmap.
  destruct ax; unfold keepdims_rows, apply_slices.
  - now rewrite broadcast_rows_scalar.
  - rewrite broadcast_rows_row; trivial.
    rewrite length_map. now apply transpose_length.
  - destruct rows as [|r rs]; [reflexivity|].
    now rewrite broadcast_rows_column.
Qed.

Lemma length_rows_apply_slices (rows : list (list T)) (ax : axis) :
  rectangular rows ->
  Forall2 (fun r r' => length r' = length r) rows
          (apply_slices f g ax rows).
Proof.
  intros Hrect. destruct ax; unfold apply_slices; apply Forall2_map_r.
  - apply Forall_forall. intros r _. apply length_map.
  - generalize Hrect. apply Forall_impl. intros r Hr.
    apply zip_with_length. rewrite length_map, Hr.
    symmetry. now apply transpose_length.
  - apply Forall_forall. intros r _. apply length_map.
Qed.

Lemma shape_apply_slices_rect (rows : list (list T)) (ax : axis) :
  rectangular rows ->
  shape (A2 (apply_slices f g ax rows)) = shape (A2 rows).
Proof.
  intros Hrect. generalize (length_rows_apply_slices ax Hrect).
  intros H. simpl. f_equal.
  - symmetry. eapply Forall2_length, H.
  - f_equal. unfold ncols. destruct H; simpl; congruence.
Qed.

Lemma rectangular_apply_slices (rows : list (list T)) (ax : axis) :
  rectangular rows -> rectangular (apply_slices f g ax rows).
Proof.
  intros Hrect. unfold rectangular.
  assert (Hn : ncols (apply_slices f g ax rows) = ncols rows).
  { generalize (shape_apply_slices_rect ax Hrect). simpl. congruence. }
  rewrite Hn. clear Hn. generalize (length_rows_apply_slices ax Hrect).
  unfold rectangular in Hrect. revert Hrect. generalize (ncols rows).
  intros n Hrect H.
  induction H as [|r r' rs rs' Hr _ IH]; [constructor|].
  apply Forall_cons_iff in Hrect as [Hn' Hrs].
  constructor; [congruence | now apply IH].
Qed.

Lemma matrix_apply_slices (rows : list (list T)) (ax : axis) :
  matrix rows -> matrix (apply_slices f g ax rows).
Proof.
  intros (Hne & Hcol & Hrect).
  generalize (shape_apply_slices_rect ax Hrect). simpl. intros [= Hl Hc].
  repeat split.
  - intros E. rewrite E in Hl. destruct rows; simpl in *; congruence.
  - congruence.
  - now apply rectangular_apply_slices.
Qed.

End Rectangular.

Section MoreLists.
Context {T U V : Type}.

Lemma zip_with_repeat_l (f : T -> U -> V) (c : T) (l : list U) :
  zip_with f (repeat c (length l)) l = map (f c) l.
Proof.
  induction l as [|x l IH]; simpl; [reflexivity|].
  now rewrite IH.
Qed.

Lemma zip_with_map_l {W} (f : T -> U -> V) (h : W -> T)
  (l : list W) (l' : list U) :
  zip_with f (map h l) l' = zip_with (fun x y => f (h x) y) l l'.
Proof.
  revert l'. induction l as [|x l IH]; intros [|y l']; simpl;
    try reflexivity.
  now rewrite IH.
Qed.

Lemma zip_with_map_repeat_r {W} (f : T -> U -> V) (h : W -> T) (c : U)
  (l : list W) :
  zip_with f (map h l) (repeat c (length l)) = map (fun x => f (h x) c) l.
Proof.
  induction l as [|x l IH]; simpl; [reflexivity|].
  now rewrite IH.
Qed.

Lemma zip_with_repeat_l_map {W} (f : T -> U -> V) (c : T) (h : W -> U)
  (l : list W) :
  zip_with f (repeat c (length l)) (map h l) = map (fun y => f c (h y)) l.
Proof.
  induction l as [|x l IH]; simpl; [reflexivity|].
  now rewrite IH.
Qed.

Lemma zip_with_diag (f : T -> T -> V) (l : list T) :
  zip_with f l l = map (fun x => f x x) l.
Proof.
  induction l as [|x l IH]; simpl; [reflexivity|].
  now rewrite IH.
Qed.

Lemma existsb_id_map (h : T -> bool) (l : list T) :
  existsb (fun b : bool => b) (map h l) = existsb h l.
Proof.
  induction l as [|x l IH]; simpl; [reflexivity|].
  now rewrite IH.
Qed.

Lemma ravel_amap (h : T -> U) (a : arr T) :
  ravel (amap h a) = map h (ravel a).
Proof.
  destruct a; simpl; try reflexivity.
  now rewrite concat_map.
Qed.

Lemma zip_cons_map (h : T -> U) (r : list T) (cols : list (list T)) :
  zip_cons (map h r) (map (map h) cols) = map (map h) (zip_cons r cols).
Proof.
  unfold zip_cons. revert cols.
  induction r as [|x r IH]; intros [|c cols]; simpl; try reflexivity.
  now rewrite IH.
Qed.

Lemma transpose_map (h : T -> U) (n : nat) (rows : list (list T)) :
  transpose n (map (map h) rows) = map (map h) (transpose n rows).
Proof.
  induction rows as [|r rs IH]; simpl.
  - induction n as [|n IHn]; simpl; [reflexivity|]. now rewrite IHn.
  - rewrite IH. apply zip_cons_map.
Qed.

(** An array against a Python scalar: the scalar meets every element. *)
Lemma broadcast2_scalar (f : T -> U -> V) (a : arr T) (c : U) :
  well_formed a ->
  broadcast2 f a (A0 c) = Ok (amap (fun x => f x c) a).
Proof.
  destruct a as [x|v|rows]; simpl; intros H; try reflexivity.
  unfold rmap. now rewrite broadcast_rows_scalar.
Qed.

Lemma Forall_zip_cons_inv (P : T -> Prop) (r : list T)
  (cols : list (list T)) :
  length r = length cols ->
  Forall (Forall P) (zip_cons r cols) ->
  Forall P r /\ Forall (Forall P) cols.
Proof.
  unfold zip_cons. revert cols.
  induction r as [|x r IH]; intros [|c cols] Hl H; simpl in *;
    try discriminate; [split; constructor|].
  apply Forall_cons_iff in H as [Hc H].
  apply Forall_cons_iff in Hc as [Hx Hc].
  destruct (IH cols) as [H1 H2]; [congruence | assumption |].
  split; constructor; assumption.
Qed.

(** What holds of every element of every slice holds of every element. *)
Lemma Forall_slices_inv (P : T -> Prop) (rows : list (list T)) (ax : axis) :
  rectangular rows ->
  Forall (Forall P) (slices ax rows) -> Forall (Forall P) rows.
Proof.
  unfold rectangular. intros Hrect H. destruct ax; simpl in H; trivial.
  - apply Forall_cons_iff in H as [H _]. now apply Forall_concat.
  - revert Hrect H. generalize (ncols rows). intros n Hrect.
    induction Hrect as [|r rs Hr Hrs IH]; intros H; [constructor|].
    simpl in H. apply Forall_zip_cons_inv in H as [H1 H2].
    + constructor; auto.
    + rewrite Hr. symmetry. now apply transpose_length.
Qed.

End MoreLists.

(** ** Errors and empty arrays *)

(** X1.  [sum] raises nothing on a rectangular two-dimensional array, empty
    or not, whatever its dtype and the axis: it returns a float array of
    the same shape.  This holds in any float arithmetic, binary64
    included. *)
Theorem sum_returns_on_every_rectangular_array
  {F : Type} {FL : Floating F}
  (M : ndarray F) (rows : list (list F)) (ax : axis) :
  asarray_float M = A2 rows ->
  rectangular rows ->
  exists R,
    norm.sum M ax = Ok (FloatArr (A2 R)) /\
    shape (A2 R) = shape (A2 rows) /\
    rectangular R.
Proof.
  intros HM Hrect. exists (apply_slices fl_div list_sum ax rows).
  split; [|split].
  - unfold norm.sum, np_sum. rewrite HM, reduce_keepdims. cbn [bind].
    now rewrite broadcast_keepdims_rect.
  - now apply shape_apply_slices_rect.
  - now apply rectangular_apply_slices.
Qed.

Lemma sum_returns_on_every_rectangular_array_witness :
  exists R,
    norm.sum (F := float) (IntArr (A2 [[]; []])) AxNone
    = Ok (FloatArr (A2 R)) /\
    shape (A2 R) = shape (A2 ([[]; []] : list (list float))) /\
    rectangular R.
Proof.
  apply (sum_returns_on_every_rectangular_array
           (IntArr (A2 [[]; []])) (rows := [[]; []]) AxNone).
  - reflexivity.
  - repeat constructor.
Defined.

(** X2.  On an array that has rows but no columns, and on an empty
    one-dimensional array, the reductions without identity raise: [max]
    and [push_negatives] fail with [ValueError] for [axis=None] and for
    the axis that runs along the missing elements. *)
Theorem max_and_push_negatives_raise_on_empty_slices
  {F : Type} {FL : Floating F} (m : nat) :
  let E : list (list F) := repeat [] (S m) in
  let Z0 : list (list Z) := repeat [] (S m) in
  norm.max (FloatArr (A2 E)) AxNone = Raise ValueError /\
  norm.max (FloatArr (A2 E)) Ax1 = Raise ValueError /\
  norm.push_negatives (FloatArr (A2 E)) AxNone = Raise ValueError /\
  norm.push_negatives (FloatArr (A2 E)) Ax1 = Raise ValueError /\
  norm.push_negatives (F := F) (IntArr (A2 Z0)) AxNone = Raise ValueError /\
  norm.push_negatives (F := F) (IntArr (A2 Z0)) Ax1 = Raise ValueError /\
  norm.max (F := F) (FloatArr (A1 [])) AxNone = Raise ValueError /\
  norm.max (F := F) (FloatArr (A1 [])) Ax0 = Raise ValueError /\
  norm.push_negatives (F := F) (IntArr (A1 [])) AxNone = Raise ValueError /\
  norm.push_negatives (F := F) (IntArr (A1 [])) Ax0 = Raise ValueError.
Proof.
  cbv zeta.
  unfold norm.max, norm.push_negatives, np_max, np_min, np_min_at,
    reduce_noidentity, asarray_float.
  rewrite !reduce_keepdims. cbn [bind rmap reduced_size reduce].
  unfold ncols. cbn [repeat hd length]. rewrite !repeat_length, Nat.mul_0_r.
  repeat split; reflexivity.
Qed.

(** X3.  A one-dimensional array has no axis 1: [sum], [max], [vector]
    and [push_negatives] raise [AxisError] there, whatever the array
    holds. *)
Theorem axis1_of_a_one_dimensional_array_is_an_error
  {F : Type} {FL : Floating F} (v : list F) (z : list Z) :
  norm.sum (FloatArr (A1 v)) Ax1 = Raise AxisError /\
  norm.max (FloatArr (A1 v)) Ax1 = Raise AxisError /\
  norm.vector (FloatArr (A1 v)) Ax1 = Raise AxisError /\
  norm.push_negatives (FloatArr (A1 v)) Ax1 = Raise AxisError /\
  norm.sum (F := F) (IntArr (A1 z)) Ax1 = Raise AxisError /\
  norm.max (F := F) (IntArr (A1 z)) Ax1 = Raise AxisError /\
  norm.vector (F := F) (IntArr (A1 z)) Ax1 = Raise AxisError /\
  norm.push_negatives (F := F) (IntArr (A1 z)) Ax1 = Raise AxisError.
Proof. repeat split; reflexivity. Qed.

(** ** [add1to0] on integer arrays *)

Section Add1to0.
Context {F : Type} {FL : Floating F}.

Lemma nd_eq_int_scalar (a : arr Z) (k : Z) :
  well_formed a ->
  nd_eq (F := F) (IntArr a) (py_int k)
  = Ok (BoolArr (amap (fun x => (x =? k)%Z) a)).
Proof.
  intros H. unfold nd_eq, py_int, promote2, rmap.
  now rewrite broadcast2_scalar.
Qed.

Lemma contains_int (a : arr Z) :
  well_formed a ->
  contains (F := F) 0 (IntArr a) = Ok (has_zero (ravel a)).
Proof.
  intros H. unfold contains. rewrite nd_eq_int_scalar by assumption.
  cbn [bind truth]. now rewrite ravel_amap, existsb_id_map.
Qed.

Lemma nd_add_int_scalar (a : arr Z) (k : Z) :
  well_formed a ->
  nd_add (F := F) (IntArr a) (py_int k)
  = Ok (IntArr (amap (fun x => add64 x k) a)).
Proof.
  intros H. unfold nd_add, py_int, promote2, rmap.
  now rewrite broadcast2_scalar.
Qed.

Lemma has_zero_false (l : list Z) :
  has_zero l = false <-> ~ In 0%Z l.
Proof.
  unfold has_zero. split.
  - intros H Hin. assert (existsb (fun z => (z =? 0)%Z) l = true).
    { apply existsb_exists. exists 0%Z. now split. }
    congruence.
  - intros H. destruct (existsb (fun z => (z =? 0)%Z) l) eqn:E; trivial.
    apply existsb_exists in E as (x & Hx & E). apply Z.eqb_eq in E.
    subst. contradiction.
Qed.

Lemma has_zero_true (l : list Z) : has_zero l = true <-> In 0%Z l.
Proof.
  unfold has_zero. rewrite existsb_exists. split.
  - intros (x & Hx & E). apply Z.eqb_eq in E. now subst.
  - intros H. exists 0%Z. now split.
Qed.

(** The flags of [np.any(arr == 0, axis)], one per slice. *)
Lemma any_eq0 (rows : list (list Z)) (ax : axis) :
  np_any (F := F) (BoolArr (amap (fun x => (x =? 0)%Z) (A2 rows))) ax
  = Ok (BoolArr (match ax with
                 | AxNone => A0 (has_zero (concat rows))
                 | _ => A1 (map has_zero (slices ax rows))
                 end)).
Proof.
  unfold np_any, truth, amap, reduce, rmap, bind, has_zero.
  destruct ax; simpl.
  - now rewrite <- concat_map, existsb_id_map.
  - rewrite ncols_map, transpose_map, map_map. do 3 f_equal.
    apply map_ext. intros c. apply existsb_id_map.
  - rewrite map_map. do 3 f_equal.
    apply map_ext. intros c. apply existsb_id_map.
Qed.

(** The body of the [else] branch, for a row of flags of length [k]. *)
Lemma add_increment (rows : list (list Z)) (flags : list bool) :
  (zeros <- Ok (BoolArr (A1 flags)) ;;
   k <- shape0 (F := F) zeros ;;
   increment <- setitem_mask (np_zeros k) zeros 1 ;;
   nd_add (IntArr (A2 rows)) increment)
  = rmap FloatArr
      (rmap A2 (broadcast_rows num_add (map (map fl_of_Z) rows)
                  [increment_of flags])).
Proof.
  cbn [bind shape0 nd_shape shape np_zeros setitem_mask].
  rewrite repeat_length, Nat.eqb_refl. cbn [bind].
  rewrite zip_with_repeat_l. reflexivity.
Qed.

End Add1to0.

Section Add1to0Closed.
Context {F : Type} {FL : Floating F}.

Lemma bdim_none (p q : nat) :
  p <> q -> p <> 1%nat -> q <> 1%nat -> bdim p q = None.
Proof.
  intros H1 H2 H3. unfold bdim.
  destruct (Nat.eqb_spec p q); [contradiction|].
  destruct (Nat.eqb_spec p 1); [contradiction|].
  destruct (Nat.eqb_spec q 1); [contradiction|reflexivity].
Qed.

(** With a zero in a matrix and an axis given, [add1to0] adds to the
    matrix, cast to float, the one-dimensional increment of the flags. *)
Lemma add1to0_axis_closed (rows : list (list Z)) (ax : axis) :
  rectangular rows ->
  In 0%Z (concat rows) ->
  ax <> AxNone ->
  norm.add1to0 (F := F) (IntArr (A2 rows)) ax
  = rmap FloatArr
      (rmap A2 (broadcast_rows num_add (map (map fl_of_Z) rows)
                  [increment_of (map has_zero (slices ax rows))])).
Proof.
  intros Hrect H0 Hax. unfold norm.add1to0.
  rewrite contains_int by assumption. cbn [bind ravel].
  apply has_zero_true in H0. rewrite H0.
  cbn [nd_shape shape length Nat.eqb orb].
  rewrite nd_eq_int_scalar by assumption. cbn [bind].
  rewrite any_eq0.
  destruct ax; [congruence| |]; apply add_increment.
Qed.

Lemma matrix_of_element {T} (rows : list (list T)) (x : T) :
  rectangular rows -> In x (concat rows) -> matrix rows.
Proof.
  intros Hrect Hin. apply in_concat in Hin as (r & Hr & Hx).
  assert (Hlen : length r = ncols rows).
  { unfold rectangular in Hrect. rewrite Forall_forall in Hrect. auto. }
  repeat split; trivial.
  - intros ->. contradiction.
  - rewrite <- Hlen. destruct r; [contradiction | discriminate].
Qed.

Lemma amap_ext_in {T U} (f g : T -> U) (a : arr T) :
  (forall x, In x (ravel a) -> f x = g x) -> amap f a = amap g a.
Proof.
  destruct a as [x|v|rows]; simpl; intros H.
  - f_equal. apply H. now left.
  - f_equal. now apply map_ext_in.
  - f_equal. apply map_ext_in. intros r Hr. apply map_ext_in.
    intros x Hx. apply H, in_concat. eauto.
Qed.

Lemma add1to0_int_no_zero (a : arr Z) (ax : axis) :
  well_formed a ->
  ~ In 0%Z (ravel a) ->
  norm.add1to0 (F := F) (IntArr a) ax = Ok (IntArr a).
Proof.
  intros Hwf H0. unfold norm.add1to0.
  rewrite contains_int by assumption. cbn [bind].
  apply has_zero_false in H0. now rewrite H0.
Qed.

Lemma add1to0_int_whole (a : arr Z) (ax : axis) :
  well_formed a ->
  In 0%Z (ravel a) ->
  ax = AxNone \/ (exists v, a = A1 v) ->
  norm.add1to0 (F := F) (IntArr a) ax
  = Ok (IntArr (amap (fun x => add64 x 1) a)).
Proof.
  intros Hwf H0 Hcase. unfold norm.add1to0.
  rewrite contains_int by assumption. cbn [bind].
  apply has_zero_true in H0. rewrite H0.
  assert (E : ((length (nd_shape (F := F) (IntArr a)) =? 1)%nat
               || match ax with AxNone => true | _ => false end) = true).
  { destruct Hcase as [->|[v ->]]; [apply orb_true_r | reflexivity]. }
  rewrite E. now apply nd_add_int_scalar.
Qed.

End Add1to0Closed.

(** X4.  [add1to0] returns an integer array without a zero as it is: for
    every well-formed array of zero, one or two dimensions and for every
    axis, even one the array does not have. *)
Theorem add1to0_without_zero_is_identity
  {F : Type} {FL : Floating F} (a : arr Z) (ax : axis) :
  well_formed a ->
  ~ In 0%Z (ravel a) ->
  norm.add1to0 (F := F) (IntArr a) ax = Ok (IntArr a).
Proof. apply add1to0_int_no_zero. Qed.

Lemma add1to0_without_zero_is_identity_witness :
  norm.add1to0 (F := float) (IntArr (A1 [1; 2; 3]%Z)) Ax1
  = Ok (IntArr (A1 [1; 2; 3]%Z)).
Proof.
  apply (@add1to0_without_zero_is_identity float binary64
           (A1 [1; 2; 3]%Z) Ax1).
  - exact I.
  - simpl. intros [H|[H|[H|[]]]]; discriminate.
Defined.

(** X5.  When an int64 array holds a zero and either no axis is given or
    the array is one-dimensional, [add1to0] adds 1 to every element and
    keeps the dtype, so that the largest int64 value wraps around to the
    smallest; for a one-dimensional array the axis is never looked at, so
    [axis=1] is no error there. *)
Theorem add1to0_increments_the_whole_array
  {F : Type} {FL : Floating F} (a : arr Z) (ax : axis) :
  well_formed a ->
  Forall int64_value (ravel a) ->
  In 0%Z (ravel a) ->
  ax = AxNone \/ (exists v, a = A1 v) ->
  norm.add1to0 (F := F) (IntArr a) ax
  = Ok (IntArr (amap (fun x => if (x =? int64_max)%Z then int64_min
                               else (x + 1)%Z) a)).
Proof.
  intros Hwf H64 H0 Hcase.
  rewrite (@add1to0_int_whole F FL a ax) by assumption.
  do 2 f_equal. apply amap_ext_in.
  rewrite Forall_forall in H64. intros x Hx. now apply add64_one, H64.
Qed.

Lemma add1to0_increments_the_whole_array_witness :
  norm.add1to0 (F := float) (IntArr (A1 [0; int64_max; -1]%Z)) Ax1
  = Ok (IntArr (A1 [1; int64_min; 0]%Z)).
Proof.
  apply (@add1to0_increments_the_whole_array float binary64
           (A1 [0; int64_max; -1]%Z) Ax1).
  - exact I.
  - repeat constructor; discriminate.
  - now left.
  - right. now exists [0; int64_max; -1]%Z.
Defined.

(** X6.  [add1to0] with [axis=None] does not promise an array without
    zeros: the result of an int64 matrix holds a zero exactly when the
    matrix held both a 0 and a -1. *)
Theorem add1to0_leaves_a_zero_iff_minus_one
  {F : Type} {FL : Floating F} (rows : list (list Z)) :
  rectangular rows ->
  Forall (Forall int64_value) rows ->
  exists R,
    norm.add1to0 (F := F) (IntArr (A2 rows)) AxNone = Ok (IntArr (A2 R)) /\
    (In 0%Z (concat R) <->
     In 0%Z (concat rows) /\ In (-1)%Z (concat rows)).
Proof.
  intros Hrect H64. destruct (has_zero (concat rows)) eqn:E.
  - apply has_zero_true in E.
    exists (map (map (fun x => add64 x 1)) rows). split.
    + apply (@add1to0_int_whole F FL (A2 rows) AxNone); auto.
    + apply Forall_concat in H64. rewrite Forall_forall in H64.
      rewrite <- concat_map, in_map_iff. split.
      * intros (x & Hx & Hin). split; trivial.
        rewrite add64_one in Hx by auto.
        destruct (Z.eqb_spec x int64_max); [discriminate|].
        now replace (-1)%Z with x by lia.
      * intros [_ H]. exists (-1)%Z. now split.
  - apply has_zero_false in E. exists rows. split.
    + now apply (@add1to0_int_no_zero F FL (A2 rows) AxNone).
    + tauto.
Qed.

Lemma add1to0_leaves_a_zero_iff_minus_one_witness :
  exists R,
    norm.add1to0 (F := float) (IntArr (A2 [[0; -1]; [2; 3]]%Z)) AxNone
    = Ok (IntArr (A2 R)) /\
    (In 0%Z (concat R) <->
     In 0%Z (concat [[0; -1]; [2; 3]]%Z) /\
     In (-1)%Z (concat [[0; -1]; [2; 3]]%Z)).
Proof.
  apply (@add1to0_leaves_a_zero_iff_minus_one float binary64
           [[0; -1]; [2; 3]]%Z).
  - repeat constructor.
  - repeat constructor; discriminate.
Defined.

Section Add1to0Axis.
Local Open Scope R_scope.

Lemma increment_exact (x : Z) (b : bool) :
  xadd (Fin (IZR x)) (if b then Fin (IZR 1) else Fin 0)
  = Fin (IZR (if b then x + 1 else x)).
Proof.
  destruct b; simpl; f_equal; [now rewrite plus_IZR | ring].
Qed.

Lemma add1to0_cols_exact (rows : list (list Z)) :
  rectangular rows ->
  In 0%Z (concat rows) ->
  norm.add1to0 (F := xreal) (IntArr (A2 rows)) Ax0
  = Ok (FloatArr (A2 (apply_slices
         (fun x (b : bool) => Fin (IZR (if b then x + 1 else x)%Z))
         has_zero Ax0 rows))).
Proof.
  intros Hrect H0. rewrite add1to0_axis_closed by (trivial; discriminate).
  rewrite broadcast_rows_row.
  - cbn [rmap bind]. do 3 f_equal. unfold apply_slices, increment_of.
    rewrite map_map. apply map_ext. intros r.
    cbn [slices]. rewrite zip_with_map_l, map_map.
    generalize (transpose (ncols rows) rows). intros cols. revert cols.
    induction r as [|x r IH]; intros [|c cols]; simpl; try reflexivity.
    rewrite IH. f_equal. apply increment_exact.
  - unfold increment_of. rewrite !length_map, ncols_map. cbn [slices].
    now apply transpose_length.
  - unfold rectangular in Hrect. rewrite ncols_map. apply Forall_map.
    revert Hrect. apply Forall_impl. intros r Hr. now rewrite length_map.
Qed.

Lemma add1to0_rows_square_exact (rows : list (list Z)) :
  rectangular rows ->
  In 0%Z (concat rows) ->
  length rows = ncols rows ->
  norm.add1to0 (F := xreal) (IntArr (A2 rows)) Ax1
  = Ok (FloatArr (A2 (map
         (fun r => zip_with
            (fun x (b : bool) => Fin (IZR (if b then x + 1 else x)%Z))
            r (map has_zero rows)) rows))).
Proof.
  intros Hrect H0 Hsq. rewrite add1to0_axis_closed by (trivial; discriminate).
  rewrite broadcast_rows_row.
  - cbn [rmap bind slices]. do 3 f_equal. unfold increment_of.
    rewrite map_map. apply map_ext. intros r.
    rewrite zip_with_map_l.
    generalize (map has_zero rows). intros flags. revert flags.
    induction r as [|x r IH]; intros [|b flags]; simpl; try reflexivity.
    rewrite IH. f_equal. apply increment_exact.
  - unfold increment_of. cbn [slices]. now rewrite !length_map, ncols_map.
  - unfold rectangular in Hrect. rewrite ncols_map. apply Forall_map.
    revert Hrect. apply Forall_impl. intros r Hr. now rewrite length_map.
Qed.

End Add1to0Axis.

(** X7.  With [axis=0] and a zero somewhere in an integer matrix,
    [add1to0] returns a float matrix of the same shape in which every
    column that holds a zero is incremented by 1 and every other column
    keeps its values (exact arithmetic). *)
Theorem add1to0_axis0_increments_columns_with_a_zero
  (rows : list (list Z)) :
  rectangular rows ->
  In 0%Z (concat rows) ->
  exists R,
    norm.add1to0 (F := xreal) (IntArr (A2 rows)) Ax0
    = Ok (FloatArr (A2 R)) /\
    shape (A2 R) = shape (A2 rows) /\
    Forall2
      (fun s t =>
         t = map (fun x => Fin (IZR (if has_zero s then x + 1 else x))) s)
      (slices Ax0 rows) (slices Ax0 R).
Proof.
  intros Hrect H0. eexists. split; [|split].
  - now apply add1to0_cols_exact.
  - now apply shape_apply_slices_rect.
  - rewrite slices_apply_slices by (eapply matrix_of_element; eauto).
    apply Forall2_map_r, Forall_forall. reflexivity.
Qed.

Lemma add1to0_axis0_increments_columns_with_a_zero_witness :
  exists R,
    norm.add1to0 (F := xreal) (IntArr (A2 [[1; 0]; [2; 3]]%Z)) Ax0
    = Ok (FloatArr (A2 R)) /\
    shape (A2 R) = shape (A2 [[1; 0]; [2; 3]]%Z) /\
    Forall2
      (fun s t =>
         t = map (fun x => Fin (IZR (if has_zero s then x + 1 else x))) s)
      (slices Ax0 [[1; 0]; [2; 3]]%Z) (slices Ax0 R).
Proof.
  apply (@add1to0_axis0_increments_columns_with_a_zero [[1; 0]; [2; 3]]%Z).
  - repeat constructor.
  - simpl. auto.
Defined.

(** X8.  With [axis=1] and a zero somewhere in a square integer matrix,
    [add1to0] increments column [j] exactly when row [j] holds a zero:
    in every row of the result, entry [j] is the entry of the input plus
    the flag of row [j] (exact arithmetic). *)
Theorem add1to0_axis1_on_a_square_matrix (rows : list (list Z)) :
  rectangular rows ->
  In 0%Z (concat rows) ->
  length rows = ncols rows ->
  exists R,
    norm.add1to0 (F := xreal) (IntArr (A2 rows)) Ax1
    = Ok (FloatArr (A2 R)) /\
    Forall2
      (fun r r' =>
         r' = zip_with
                (fun x (b : bool) => Fin (IZR (if b then x + 1 else x)))
                r (map has_zero rows))
      rows R.
Proof.
  intros Hrect H0 Hsq. eexists. split.
  - now apply add1to0_rows_square_exact.
  - apply Forall2_map_r, Forall_forall. reflexivity.
Qed.

Lemma add1to0_axis1_on_a_square_matrix_witness :
  exists R,
    norm.add1to0 (F := xreal) (IntArr (A2 [[1; 0]; [2; 3]]%Z)) Ax1
    = Ok (FloatArr (A2 R)) /\
    Forall2
      (fun r r' =>
         r' = zip_with
                (fun x (b : bool) => Fin (IZR (if b then x + 1 else x)))
                r (map has_zero [[1; 0]; [2; 3]]%Z))
      [[1; 0]; [2; 3]]%Z R.
Proof.
  apply (@add1to0_axis1_on_a_square_matrix [[1; 0]; [2; 3]]%Z).
  - repeat constructor.
  - simpl. auto.
  - reflexivity.
Defined.

(** X9.  With [axis=1] and a zero somewhere in an integer matrix that is
    not square and has at least two rows and two columns, [add1to0]
    raises [ValueError]: the increment has one entry per row and does not
    broadcast against the columns.  This holds in any float arithmetic. *)
Theorem add1to0_axis1_raises_on_a_non_square_matrix
  {F : Type} {FL : Floating F} (rows : list (list Z)) :
  rectangular rows ->
  In 0%Z (concat rows) ->
  length rows <> ncols rows ->
  length rows <> 1%nat ->
  ncols rows <> 1%nat ->
  norm.add1to0 (F := F) (IntArr (A2 rows)) Ax1 = Raise ValueError.
Proof.
  intros Hrect H0 Hsq Hm Hn.
  rewrite add1to0_axis_closed by (trivial; discriminate).
  unfold broadcast_rows.
  change (ncols [increment_of (map has_zero (slices Ax1 rows))])
    with (length (increment_of (F := F) (map has_zero (slices Ax1 rows)))).
  unfold increment_of. cbn [slices].
  rewrite !length_map, ncols_map.
  rewrite (bdim_none (p := ncols rows) (q := length rows)) by auto.
  now destruct (bdim (length rows) (length [_])).
Qed.

Lemma add1to0_axis1_raises_on_a_non_square_matrix_witness :
  norm.add1to0 (F := float) (IntArr (A2 [[0; 1; 2]; [3; 4; 5]]%Z)) Ax1
  = Raise ValueError.
Proof.
  apply (@add1to0_axis1_raises_on_a_non_square_matrix float binary64
           [[0; 1; 2]; [3; 4; 5]]%Z).
  - repeat constructor.
  - simpl. auto.
  - discriminate.
  - discriminate.
  - discriminate.
Defined.

(** ** [push_negatives] on integer matrices *)

Section PushInt.
Local Open Scope Z_scope.

Lemma fold_Zmin_lower (l : list Z) (a b : Z) :
  b <= a -> Forall (fun x => b <= x) l -> b <= fold_left Z.min l a.
Proof.
  intros Ha H. revert a Ha.
  induction H as [|x l Hx _ IH]; intros a Ha; simpl; [assumption|].
  apply IH. lia.
Qed.

Lemma list_min_le (l : list Z) (x : Z) : In x l -> list_min l <= x.
Proof.
  destruct l as [|a l]; [contradiction|].
  unfold list_min, fold1. rewrite fold_minimum_Z.
  intros [<-|H]; [apply fold_Zmin_le_acc | now apply fold_Zmin_le_in].
Qed.

Lemma list_min_nonneg (l : list Z) :
  Forall (fun x => 0 <= x) l -> 0 <= list_min l.
Proof.
  destruct l as [|a l]; [reflexivity|].
  intros H. apply Forall_cons_iff in H as [Ha H].
  unfold list_min, fold1. rewrite fold_minimum_Z.
  now apply fold_Zmin_lower.
Qed.

(** What [push_negatives] makes of an element of a slice is not negative,
    as long as no difference within the slice leaves int64. *)
Lemma delta_nonneg (s : list Z) (x : Z) :
  spread_fits s -> In x s ->
  0 <= sub64 x (mul64 (Z.b2z (list_min s <? 0)) (list_min s)).
Proof.
  intros Hfit H. rewrite mul64_b2z.
  assert (Hne : s <> []) by (destruct s; [destruct H | discriminate]).
  destruct (list_min_least Hne) as [Hin _].
  pose proof (list_min_le _ _ H) as Hle.
  destruct (Z.ltb_spec (list_min s) 0); cbn [Z.b2z].
  - rewrite Z.mul_1_l. specialize (Hfit _ _ H Hin).
    rewrite sub64_exact; [lia|].
    unfold int64_value, int64_min, int64_max in *. lia.
  - rewrite Z.mul_0_l, sub64_zero. lia.
Qed.

Lemma delta_zero (s : list Z) :
  Forall (fun x => 0 <= x) s ->
  mul64 (Z.b2z (list_min s <? 0)) (list_min s) = 0.
Proof.
  intros H. apply list_min_nonneg in H. rewrite mul64_b2z.
  destruct (Z.ltb_spec (list_min s) 0); cbn [Z.b2z]; lia.
Qed.

End PushInt.

Section ConstantStatistic.
Context {T U V : Type} (f : T -> U -> V) (g : list T -> U).

Lemma map_const (c : U) (l : list (list T)) :
  Forall (fun s => g s = c) l -> map g l = repeat c (length l).
Proof.
  induction 1 as [|s l Hs _ IH]; simpl; [reflexivity|].
  now rewrite Hs, IH.
Qed.

(** When the statistic is the same in every slice, every element meets
    that one value. *)
Lemma apply_slices_const (c : U) (rows : list (list T)) (ax : axis) :
  rectangular rows ->
  Forall (fun s => g s = c) (slices ax rows) ->
  apply_slices f g ax rows = map (map (fun x => f x c)) rows.
Proof.
  intros Hrect H. destruct ax; unfold apply_slices; cbn [slices] in H.
  - apply Forall_cons_iff in H as [-> _]. reflexivity.
  - rewrite (map_const H), transpose_length by assumption.
    apply map_ext_Forall. generalize Hrect. apply Forall_impl.
    intros r <-. apply zip_with_repeat_r.
  - apply map_ext_Forall. revert H. apply Forall_impl.
    now intros r ->.
Qed.

End ConstantStatistic.

Section PushIntMatrix.
Context {F : Type} {FL : Floating F}.
Local Open Scope Z_scope.

Lemma push_int_nonneg (rows : list (list Z)) (ax : axis) :
  matrix rows ->
  Forall spread_fits (slices ax rows) ->
  exists R,
    norm.push_negatives (F := F) (IntArr (A2 rows)) ax
    = Ok (IntArr (A2 R)) /\
    matrix R /\
    Forall (Forall (fun x => 0 <= x)) R.
Proof.
  intros Hm Hfit. eexists. split; [|split].
  - now apply push_negatives_int_closed.
  - now apply matrix_apply_slices.
  - apply (@Forall_slices_inv _ _ _ ax).
    + apply rectangular_apply_slices, Hm.
    + rewrite slices_apply_slices by assumption.
      apply Forall_map. revert Hfit. apply Forall_impl. intros s Hs.
      apply Forall_map, Forall_forall. intros x Hx.
      now apply delta_nonneg.
Qed.

Lemma push_int_fixed (rows : list (list Z)) (ax : axis) :
  matrix rows ->
  Forall (Forall (fun x => 0 <= x)) rows ->
  norm.push_negatives (F := F) (IntArr (A2 rows)) ax
  = Ok (IntArr (A2 rows)).
Proof.
  intros Hm Hpos. rewrite push_negatives_int_closed by assumption.
  rewrite (@apply_slices_const _ _ _ sub64 _ 0).
  - do 3 f_equal. rewrite <- (map_id rows) at 2. apply map_ext.
    intros r. rewrite <- (map_id r) at 2. apply map_ext. intros x.
    apply sub64_zero.
  - apply Hm.
  - generalize (Forall_slices ax Hpos). apply Forall_impl.
    intros s Hs. now apply delta_zero.
Qed.

End PushIntMatrix.

Ltac concrete_int64 := repeat constructor; discriminate.

Ltac concrete_spread :=
  repeat constructor; intros x y Hx Hy; simpl in Hx, Hy;
  unfold int64_max; lia.

(** X10.  Whatever the axis, the result of [push_negatives] on a
    non-empty int64 matrix has no negative element, provided that within
    each axis slice no difference of two elements exceeds [2^63 - 1]
    (beyond that the subtraction wraps around). *)
Theorem push_negatives_result_is_non_negative
  {F : Type} {FL : Floating F} (rows : list (list Z)) (ax : axis) :
  matrix rows ->
  Forall (Forall int64_value) rows ->
  Forall spread_fits (slices ax rows) ->
  exists R,
    norm.push_negatives (F := F) (IntArr (A2 rows)) ax
    = Ok (IntArr (A2 R)) /\
    Forall (Forall (fun x => (0 <= x)%Z)) R.
Proof.
  intros Hm _ Hfit.
  destruct (push_int_nonneg (F := F) ax Hm Hfit) as (R & H & _ & Hpos).
  now exists R.
Qed.

Lemma push_negatives_result_is_non_negative_witness :
  exists R,
    norm.push_negatives (F := float) (IntArr (A2 [[-1; 2]; [3; -4]]%Z)) Ax0
    = Ok (IntArr (A2 R)) /\
    Forall (Forall (fun x => (0 <= x)%Z)) R.
Proof.
  apply (@push_negatives_result_is_non_negative float binary64
           [[-1; 2]; [3; -4]]%Z Ax0).
  - concrete_matrix.
  - concrete_int64.
  - concrete_spread.
Defined.

(** X11.  [push_negatives] returns a non-empty integer matrix without
    negative elements as it is, whatever the axis. *)
Theorem push_negatives_keeps_a_non_negative_matrix
  {F : Type} {FL : Floating F} (rows : list (list Z)) (ax : axis) :
  matrix rows ->
  Forall (Forall (fun x => (0 <= x)%Z)) rows ->
  norm.push_negatives (F := F) (IntArr (A2 rows)) ax
  = Ok (IntArr (A2 rows)).
Proof. apply push_int_fixed. Qed.

Lemma push_negatives_keeps_a_non_negative_matrix_witness :
  norm.push_negatives (F := float) (IntArr (A2 [[1; 0]; [3; 4]]%Z)) Ax1
  = Ok (IntArr (A2 [[1; 0]; [3; 4]]%Z)).
Proof.
  apply (@push_negatives_keeps_a_non_negative_matrix float binary64
           [[1; 0]; [3; 4]]%Z Ax1).
  - concrete_matrix.
  - repeat constructor; lia.
Defined.

(** X12.  [push_negatives] is idempotent on non-empty int64 matrices in
    which, within each axis slice, no difference of two elements exceeds
    [2^63 - 1], and across axes: applied to its own result, along any
    axis, it changes nothing. *)
Theorem push_negatives_is_idempotent
  {F : Type} {FL : Floating F} (rows : list (list Z)) (ax : axis) :
  matrix rows ->
  Forall (Forall int64_value) rows ->
  Forall spread_fits (slices ax rows) ->
  exists R,
    norm.push_negatives (F := F) (IntArr (A2 rows)) ax
    = Ok (IntArr (A2 R)) /\
    forall ax',
      norm.push_negatives (F := F) (IntArr (A2 R)) ax'
      = Ok (IntArr (A2 R)).
Proof.
  intros Hm _ Hfit.
  destruct (push_int_nonneg (F := F) ax Hm Hfit) as (R & H & HR & Hpos).
  exists R. split; [assumption|]. intros ax'. now apply push_int_fixed.
Qed.

Lemma push_negatives_is_idempotent_witness :
  exists R,
    norm.push_negatives (F := float) (IntArr (A2 [[-1; 2]; [3; -4]]%Z)) Ax1
    = Ok (IntArr (A2 R)) /\
    forall ax',
      norm.push_negatives (F := float) (IntArr (A2 R)) ax'
      = Ok (IntArr (A2 R)).
Proof.
  apply (@push_negatives_is_idempotent float binary64
           [[-1; 2]; [3; -4]]%Z Ax1).
  - concrete_matrix.
  - concrete_int64.
  - concrete_spread.
Defined.

(** ** [vector] *)

Section VectorClosed.
Context {F : Type} {FL : Floating F}.

Lemma linalg_norm_matrix (rows : list (list F)) (ax : axis) :
  linalg_norm (A2 rows) ax
  = Ok (match ax with
        | AxNone => A0 (l2 (concat rows))
        | _ => A1 (map l2 (slices ax rows))
        end).
Proof.
  unfold linalg_norm, l2. destruct ax; cbn [ravel amap reduce rmap bind].
  - now rewrite zip_with_diag.
  - cbn [slices]. rewrite ncols_map, transpose_map, !map_map. reflexivity.
  - cbn [slices]. rewrite !map_map. reflexivity.
Qed.

(** Without an axis and along the columns, [vector] divides every
    element by the norm of its slice. *)
Lemma vector_closed (M : ndarray F) (rows : list (list F)) (ax : axis) :
  asarray_float M = A2 rows ->
  rectangular rows ->
  ax <> Ax1 ->
  norm.vector M ax = Ok (FloatArr (A2 (apply_slices fl_div l2 ax rows))).
Proof.
  intros HM Hrect Hax. unfold norm.vector.
  rewrite HM, linalg_norm_matrix. cbn [bind].
  destruct ax; [| |congruence].
  - now rewrite broadcast2_scalar.
  - unfold broadcast2, view2, rmap. cbn [slices].
    rewrite broadcast_rows_row; trivial.
    rewrite length_map. now apply transpose_length.
Qed.

(** Along the rows the norms come back as a one-dimensional array, one
    entry per row, and meet the columns. *)
Lemma vector_axis1_closed (M : ndarray F) (rows : list (list F)) :
  asarray_float M = A2 rows ->
  norm.vector M Ax1
  = rmap FloatArr (rmap A2 (broadcast_rows fl_div rows [map l2 rows])).
Proof.
  intros HM. unfold norm.vector.
  now rewrite HM, linalg_norm_matrix.
Qed.

End VectorClosed.

(** X13.  [vector] with [axis=1] raises [ValueError] on every matrix that
    is not square and has at least two rows and two columns: the row
    norms, one per row, do not broadcast against the columns.  This holds
    in any float arithmetic. *)
Theorem vector_axis1_raises_on_a_non_square_matrix
  {F : Type} {FL : Floating F} (M : ndarray F) (rows : list (list F)) :
  asarray_float M = A2 rows ->
  length rows <> ncols rows ->
  length rows <> 1%nat ->
  ncols rows <> 1%nat ->
  norm.vector M Ax1 = Raise ValueError.
Proof.
  intros HM Hsq Hm Hn. rewrite (vector_axis1_closed M HM).
  unfold broadcast_rows.
  change (ncols [map l2 rows]) with (length (map l2 rows)).
  rewrite length_map.
  rewrite (bdim_none (p := ncols rows) (q := length rows)) by auto.
  now destruct (bdim (length rows) (length [_])).
Qed.

Lemma vector_axis1_raises_on_a_non_square_matrix_witness :
  norm.vector (F := float) (IntArr (A2 [[1; 2; 3]; [4; 5; 6]]%Z)) Ax1
  = Raise ValueError.
Proof.
  apply (@vector_axis1_raises_on_a_non_square_matrix float binary64
           (IntArr (A2 [[1; 2; 3]; [4; 5; 6]]%Z))
           (map (map float_of_Z) [[1; 2; 3]; [4; 5; 6]]%Z)).
  - reflexivity.
  - discriminate.
  - discriminate.
  - discriminate.
Defined.

(** X14.  [vector] with [axis=1] on a square matrix divides entry [j] of
    every row by the norm of row [j], not by the norm of the row the
    entry lies in.  This holds in any float arithmetic. *)
Theorem vector_axis1_on_a_square_matrix
  {F : Type} {FL : Floating F} (M : ndarray F) (rows : list (list F)) :
  asarray_float M = A2 rows ->
  rectangular rows ->
  length rows = ncols rows ->
  norm.vector M Ax1
  = Ok (FloatArr (A2 (map (fun r => zip_with fl_div r (map l2 rows)) rows))).
Proof.
  intros HM Hrect Hsq. rewrite (vector_axis1_closed M HM).
  rewrite broadcast_rows_row; trivial.
  now rewrite length_map.
Qed.

Lemma vector_axis1_on_a_square_matrix_witness :
  let rows := map (map float_of_Z) [[1; 2]; [3; 4]]%Z in
  norm.vector (F := float) (IntArr (A2 [[1; 2]; [3; 4]]%Z)) Ax1
  = Ok (FloatArr (A2 (map (fun r => zip_with fl_div r (map l2 rows)) rows))).
Proof.
  apply (@vector_axis1_on_a_square_matrix float binary64
           (IntArr (A2 [[1; 2]; [3; 4]]%Z))
           (map (map float_of_Z) [[1; 2]; [3; 4]]%Z)).
  - reflexivity.
  - repeat constructor.
  - reflexivity.
Defined.

(** X15.  [vector] with [axis=1] does not keep the shape of a matrix with
    a single column: from [m] rows of one element it makes an [m] by [m]
    matrix, entry [(i, j)] being element [i] divided by the norm of the
    one-element row [j].  This holds in any float
    arithmetic. *)
Theorem vector_axis1_squares_a_single_column
  {F : Type} {FL : Floating F} (xs : list F) :
  norm.vector (FloatArr (A2 (map (fun x => [x]) xs))) Ax1
  = Ok (FloatArr (A2 (map (fun x => map (fun y => fl_div x (l2 [y])) xs)
                          xs))).
Proof.
  rewrite (vector_axis1_closed (FloatArr (A2 (map (fun x => [x]) xs)))
             (rows := map (fun x => [x]) xs) eq_refl).
  unfold broadcast_rows. cbn [length].
  change (ncols [map l2 (map (fun x => [x]) xs)])
    with (length (map l2 (map (fun x : F => [x]) xs))).
  rewrite !length_map, bdim_one_r.
  destruct xs as [|x0 xs]; [reflexivity|].
  change (ncols (map (fun x => [x]) (x0 :: xs))) with 1%nat.
  assert (E : bdim 1 (length (x0 :: xs)) = Some (length (x0 :: xs))).
  { unfold bdim. now destruct (Nat.eqb_spec 1 (length (x0 :: xs))) as [<-|]. }
  rewrite E. cbn [rmap bind]. do 3 f_equal.
  generalize (x0 :: xs). clear. intros l.
  rewrite (stretch_eq (k := length l) (map (fun x => [x]) l))
    by apply length_map.
  change (stretch (length l) [map l2 (map (fun x => [x]) l)])
    with (repeat (map l2 (map (fun x : F => [x]) l)) (length l)).
  rewrite zip_with_map_repeat_r.
  apply map_ext. intros x.
  rewrite (stretch_eq (k := length l) (map l2 (map (fun y : F => [y]) l)))
    by now rewrite !length_map.
  change (stretch (length l) [x]) with (repeat x (length l)).
  rewrite map_map. apply zip_with_repeat_l_map.
Qed.

Section ExactVector.
Local Open Scope R_scope.

Lemma fold_Rplus_squares_nonneg (rs : list R) (a : R) :
  0 <= a -> 0 <= fold_left Rplus (map (fun r => r * r) rs) a.
Proof.
  revert a. induction rs as [|r rs IH]; intros a Ha; simpl; [assumption|].
  apply IH. nra.
Qed.

Lemma l2_Fin (rs : list R) :
  l2 (map Fin rs)
  = Fin (R_sqrt.sqrt (fold_left Rplus (map (fun r => r * r) rs) 0)).
Proof.
  unfold l2. rewrite map_map.
  rewrite <- (map_map (fun r => r * r) Fin), list_sum_Fin.
  cbn [fl_sqrt exact xsqrt].
  replace (Rltb _ 0) with false; [reflexivity|].
  symmetry. apply Rltb_ge. apply fold_Rplus_squares_nonneg. lra.
Qed.

Lemma l2_Rsum (rs : list R) :
  l2 (map Fin rs) = Fin (R_sqrt.sqrt (Rsum (squares rs))).
Proof.
  rewrite l2_Fin, fold_left_Rplus. do 2 f_equal. unfold squares. ring.
Qed.

Lemma Rsum_squares_div (rs : list R) (d : R) :
  0 < d ->
  Rsum (squares (map (fun x => x / R_sqrt.sqrt d) rs)) = Rsum (squares rs) / d.
Proof.
  intros Hd. unfold squares.
  assert (Hs : R_sqrt.sqrt d <> 0)
    by (apply Rgt_not_eq, Rlt_gt, sqrt_lt_R0, Hd).
  rewrite <- (Rsum_div (map (fun x => x * x) rs)), !map_map. f_equal.
  apply map_ext. intros r.
  rewrite <- (sqrt_sqrt d) at 3 by lra. now field.
Qed.

(** A slice divided by the norm the code computes meets [vector_spec]. *)
Lemma vector_slice_spec (s : list xreal) :
  vector_spec s (map (fun x => xdiv x (l2 s)) s).
Proof.
  intros rs -> [Hlo _]. rewrite l2_Rsum, map_map.
  assert (Hq : 0 < Rsum (squares rs)).
  { eapply Rlt_le_trans; [|exact Hlo].
    apply Rinv_0_lt_compat, pow_lt. lra. }
  split.
  - apply map_ext. intros r. apply xdiv_Fin.
    apply Rgt_not_eq, Rlt_gt, sqrt_lt_R0, Hq.
  - rewrite Rsum_squares_div by assumption. field. lra.
Qed.

End ExactVector.

(** X16.  Without an axis and along the columns ([axis=0]), [vector]
    normalizes: on a non-empty matrix it returns a matrix of the same
    shape, and every slice whose sum of squares lies between [2^-1000]
    and [2^1000], where binary64 neither overflows nor loses the sum, has
    each element divided by the 2-norm of the slice, the squares of the
    quotients summing to 1 (exact arithmetic). *)
Theorem vector_normalizes_without_axis_and_by_column
  (M : ndarray xreal) (rows : list (list xreal)) (ax : axis) :
  asarray_float M = A2 rows ->
  matrix rows ->
  ax <> Ax1 ->
  exists R,
    norm.vector M ax = Ok (FloatArr (A2 R)) /\
    shape (A2 R) = shape (A2 rows) /\
    Forall2 vector_spec (slices ax rows) (slices ax R).
Proof.
  intros HM Hm Hax.
  exists (apply_slices xdiv l2 ax rows). split; [|split].
  - apply (vector_closed (FL := exact)); trivial. apply Hm.
  - now apply shape_apply_slices.
  - rewrite slices_apply_slices by assumption.
    apply Forall2_map_r, Forall_forall. intros s _.
    apply vector_slice_spec.
Qed.

Lemma vector_normalizes_without_axis_and_by_column_witness :
  let rows := [[Fin 1; Fin 2]; [Fin 3; Fin 4]] in
  exists R,
    norm.vector (F := xreal) (IntArr (A2 [[1; 2]; [3; 4]]%Z)) Ax0
    = Ok (FloatArr (A2 R)) /\
    shape (A2 R) = shape (A2 rows) /\
    Forall2 vector_spec (slices Ax0 rows) (slices Ax0 R).
Proof.
  apply (@vector_normalizes_without_axis_and_by_column
           (IntArr (A2 [[1; 2]; [3; 4]]%Z))
           [[Fin 1; Fin 2]; [Fin 3; Fin 4]] Ax0).
  - reflexivity.
  - concrete_matrix.
  - discriminate.
Defined.

(** ** Composition *)

Section ExactCompose.
Local Open Scope R_scope.


Lemma div_nonneg (x m : R) : 0 < m -> 0 <= x -> 0 <= x / m.
Proof.
  intros Hm Hx. unfold Rdiv.
  assert (0 < / m) by now apply Rinv_0_lt_compat.
  nra.
Qed.


(** A slice without negative elements and with a positive maximum,
    divided by it, lies between 0 and 1. *)
Lemma max_slice_unit_interval (rs : list R) :
  Forall (fun r => 0 <= r) rs ->
  xltb (Fin 0) (list_max (map Fin rs)) = true ->
  Forall (fun y => exists r, y = Fin r /\ 0 <= r <= 1)
         (map (fun x => xdiv x (list_max (map Fin rs))) (map Fin rs)).
Proof.
  intros Hs Hpos.
  assert (Hrs : rs <> []).
  { intros ->. cbn in Hpos. apply Rltb_lt in Hpos. lra. }
  destruct (list_max_Fin Hrs) as (m & Em & _ & Hle). rewrite Em in *.
  apply Rltb_lt in Hpos. rewrite map_map.
  apply Forall_map, Forall_forall. intros x Hx.
  rewrite Forall_forall in Hs.
  rewrite xdiv_Fin by lra. eexists. split; [reflexivity|]. split.
  - apply div_nonneg; auto.
  - apply div_le_one; auto.
Qed.

End ExactCompose.



Lemma slices_map {T U} (h : T -> U) (rows : list (list T)) (ax : axis) :
  slices ax (map (map h) rows) = map (map h) (slices ax rows).
Proof.
  destruct ax; simpl.
  - now rewrite concat_map.
  - now rewrite ncols_map, transpose_map.
  - reflexivity.
Qed.

Lemma matrix_map {T U} (h : T -> U) (rows : list (list T)) :
  matrix rows -> matrix (map (map h) rows).
Proof.
  intros (Hne & Hcol & Hrect). repeat split.
  - destruct rows; [congruence | discriminate].
  - now rewrite ncols_map.
  - rewrite ncols_map. apply Forall_map. revert Hrect.
    apply Forall_impl. intros r Hr. now rewrite length_map.
Qed.

Lemma positive_maximum (s : list Z) :
  (exists x, In x s /\ 0 < x)%Z ->
  xltb (Fin 0) (list_max (map (fun z => Fin (IZR z)) s)) = true.
Proof.
  intros (x & Hx & Hpos).
  rewrite <- (map_map IZR Fin).
  assert (Hne : map IZR s <> []) by (destruct s; [contradiction|discriminate]).
  destruct (list_max_Fin Hne) as (m & -> & _ & Hle).
  apply Rltb_lt. apply Rlt_le_trans with (IZR x).
  - now apply IZR_lt.
  - apply Hle. now apply in_map.
Qed.

(** X19.  [max] after [push_negatives]: on a non-empty int64 matrix in
    which, within each slice of the first axis, no difference of two
    elements exceeds [2^63 - 1], and whatever the two axes, every slice of
    the shifted matrix that holds a positive element is mapped by [max]
    into the interval from 0 to 1 (exact arithmetic). *)
Theorem max_after_push_negatives_lies_in_the_unit_interval
  (rows : list (list Z)) (ax ax' : axis) :
  matrix rows ->
  Forall (Forall int64_value) rows ->
  Forall spread_fits (slices ax rows) ->
  exists P R,
    norm.push_negatives (F := xreal) (IntArr (A2 rows)) ax
    = Ok (IntArr (A2 P)) /\
    norm.max (F := xreal) (IntArr (A2 P)) ax' = Ok (FloatArr (A2 R)) /\
    Forall2
      (fun (s : list Z) t =>
         (exists x, In x s /\ 0 < x)%Z ->
         Forall (fun y => exists r, y = Fin r /\ (0 <= r <= 1)%R) t)
      (slices ax' P) (slices ax' R).
Proof.
  intros Hm _ Hfit.
  destruct (push_int_nonneg (F := xreal) ax Hm Hfit)
    as (P & HP & HmP & Hpos).
  set (c := fun z => Fin (IZR z)).
  assert (HmP' : matrix (map (map c) P)) by now apply matrix_map.
  exists P, (apply_slices xdiv list_max ax' (map (map c) P)).
  split; [assumption|]. split.
  - now apply (max_closed (FL := exact)).
  - rewrite slices_apply_slices, slices_map, map_map by assumption.
    apply Forall2_map_r.
    generalize (Forall_slices ax' Hpos) (slices_nonempty ax' HmP).
    intros H1 H2. rewrite Forall_forall in *. intros s Hin Hex.
    unfold c. rewrite <- (map_map IZR Fin).
    apply max_slice_unit_interval.
    + apply Forall_map. specialize (H1 s Hin). revert H1.
      apply Forall_impl. intros z Hz. now apply IZR_le.
    + rewrite map_map. now apply positive_maximum.
Qed.

Lemma max_after_push_negatives_lies_in_the_unit_interval_witness :
  exists P R,
    norm.push_negatives (F := xreal) (IntArr (A2 [[-1; 2]; [3; 4]]%Z)) Ax0
    = Ok (IntArr (A2 P)) /\
    norm.max (F := xreal) (IntArr (A2 P)) Ax1 = Ok (FloatArr (A2 R)) /\
    Forall2
      (fun (s : list Z) t =>
         (exists x, In x s /\ 0 < x)%Z ->
         Forall (fun y => exists r, y = Fin r /\ (0 <= r <= 1)%R) t)
      (slices Ax1 P) (slices Ax1 R).
Proof.
  apply (@max_after_push_negatives_lies_in_the_unit_interval
           [[-1; 2]; [3; 4]]%Z Ax0 Ax1).
  - concrete_matrix.
  - concrete_int64.
  - concrete_spread.
Defined.
